(** * Privacy configuration and email masking (google-calendar-mcp)

    A shallow embedding of [src/config/EmailMasker.ts],
    [src/config/PrivacyConfig.ts] and [src/config/PrivacyConfigLoader.ts],
    and the properties the specification states about them. *)

From Stdlib Require Import ZArith Ascii String List Lia PrimFloat.
From stdpp Require Import base option strings pretty list gmap.

Local Open Scope string_scope.
Local Open Scope Z_scope.
#[local] Set Warnings "-register-all".

(** ** The JavaScript primitives the sources rely on *)

(** A JavaScript string is a sequence of code units.  The embedding keeps the
    code units U+0000..U+00FF, one [ascii] each, which covers every literal in
    the sources; the specification leaves internationalised addresses out of
    scope. *)
Module JS.

(** [String.prototype.includes] for a one-character needle. *)
Fixpoint includes (s : string) (c : ascii) : bool :=
  match s with
  | EmptyString => false
  | String a s' => if Ascii.eqb a c then true else includes s' c
  end.

(** [String.prototype.indexOf] for a one-character needle: the index of the
    first occurrence, [-1] when there is none. *)
Fixpoint indexOf (s : string) (c : ascii) : Z :=
  match s with
  | EmptyString => -1
  | String a s' =>
      if Ascii.eqb a c then 0
      else let i := indexOf s' c in if i <? 0 then -1 else i + 1
  end.

Fixpoint take (n : nat) (s : string) : string :=
  match n, s with
  | S n', String a s' => String a (take n' s')
  | _, _ => EmptyString
  end.

Fixpoint drop (n : nat) (s : string) : string :=
  match n, s with
  | S n', String _ s' => drop n' s'
  | _, _ => s
  end.

Definition len (s : string) : Z := Z.of_nat (String.length s).

(** A relative index as [slice] reads it: negative counts from the end, and
    the result is clamped to [0 .. length]. *)
Definition clampIndex (s : string) (i : Z) : Z :=
  if i <? 0 then Z.max (len s + i) 0 else Z.min i (len s).

(** [String.prototype.slice(start, end)]. *)
Definition slice (s : string) (start end_ : Z) : string :=
  let from := clampIndex s start in
  let to := clampIndex s end_ in
  take (Z.to_nat (to - from)) (drop (Z.to_nat from) s).

(** [String.prototype.slice(start)]: up to the end of the string. *)
Definition sliceFrom (s : string) (start : Z) : string :=
  slice s start (len s).

(** [String.prototype.charAt]: the one-character string at the index, the
    empty string when the index is out of range. *)
Definition charAt (s : string) (i : Z) : string :=
  if (i <? 0) || (len s <=? i) then "" else take 1 (drop (Z.to_nat i) s).

(** Lower-casing of one code unit: A-Z, and the Latin-1 capitals
    U+00C0..U+00DE without the multiplication sign U+00D7, move up by 32. *)
Definition lowerUnit (a : ascii) : ascii :=
  let n := N_of_ascii a in
  if ((65 <=? n) && (n <=? 90)
      || (192 <=? n) && (n <=? 222) && negb (n =? 215))%N
  then ascii_of_N (n + 32) else a.

(** [String.prototype.toLowerCase]. *)
Fixpoint toLowerCase (s : string) : string :=
  match s with
  | EmptyString => EmptyString
  | String a s' => String (lowerUnit a) (toLowerCase s')
  end.

(** Truthiness of a string: every string but the empty one. *)
Definition truthy (s : string) : bool :=
  match s with EmptyString => false | _ => true end.

(** *** Plain objects used as string-to-string maps

    [emailMappings] is a plain object: an object literal [{}] filled by
    assignment, or one read from JSON.  Its own properties are a finite map
    from names to strings; its prototype is [Object.prototype], whose
    properties it inherits. *)

(** The property names of [Object.prototype]. *)
Definition ObjectPrototypeNames : list string :=
  [ "constructor"; "__defineGetter__"; "__defineSetter__"; "hasOwnProperty";
    "__lookupGetter__"; "__lookupSetter__"; "isPrototypeOf";
    "propertyIsEnumerable"; "toString"; "valueOf"; "__proto__";
    "toLocaleString" ].

Definition inObjectPrototype (k : string) : bool :=
  bool_decide (k ∈ ObjectPrototypeNames).

(** What reading a property of such an object yields: a string of its own, or
    what [Object.prototype] holds under an inherited name (a built-in function
    or, for [__proto__], the prototype object), never a string. *)
Inductive PropValue :=
| VString (s : string)
| VInherited (name : string).

(** [Object.hasOwn(o, k)]. *)
Definition hasOwn (o : gmap string string) (k : string) : bool :=
  bool_decide (is_Some (o !! k)).

(** [k in o]: own properties first, then the prototype chain. *)
Definition hasProperty (o : gmap string string) (k : string) : bool :=
  hasOwn o k || inObjectPrototype k.

(** [o[k]] as an expression; [None] is [undefined]. *)
Definition getProperty (o : gmap string string) (k : string)
  : option PropValue :=
  match o !! k with
  | Some s => Some (VString s)
  | None => if inObjectPrototype k then Some (VInherited k) else None
  end.

(** [o[k] = v] for a string [v].  An own property is overwritten; a name
    inherited as a data property, or not found at all, becomes a new own
    property; [__proto__] is inherited as an accessor, so the assignment
    calls its setter, which ignores a value that is neither an object nor
    [null] and leaves [o] as it was. *)
Definition setProperty (o : gmap string string) (k v : string)
  : gmap string string :=
  if negb (hasOwn o k) && String.eqb k "__proto__" then o else <[k:=v]> o.

End JS.

(** ** Values produced by [JSON.parse] *)
Module Json.

(** Numbers are IEEE 754 doubles.  An array lists its elements; an object
    lists its own properties in the order [Object.entries] enumerates them,
    each name once. *)
Inductive JSValue :=
| JNull
| JBool (b : bool)
| JNumber (n : float)
| JString (s : string)
| JArray (elems : list JSValue)
| JObject (props : list (string * JSValue)).

(** The [typeof] operator. *)
Definition typeof (v : JSValue) : string :=
  match v with
  | JNull | JArray _ | JObject _ => "object"
  | JBool _ => "boolean"
  | JNumber _ => "number"
  | JString _ => "string"
  end.

(** Truthiness: [null], [false], zero, NaN and the empty string are falsy. *)
Definition truthy (v : JSValue) : bool :=
  match v with
  | JNull => false
  | JBool b => b
  | JNumber n => negb (PrimFloat.is_zero n || PrimFloat.is_nan n)
  | JString s => JS.truthy s
  | JArray _ | JObject _ => true
  end.

Fixpoint lookupProp (props : list (string * JSValue)) (name : string)
  : option JSValue :=
  match props with
  | [] => None
  | (k, v) :: rest => if String.eqb k name then Some v else lookupProp rest name
  end.

(** [obj.name] for the three names the loader reads ([version],
    [emailMappings], [defaultCalendarId]); [None] is [undefined].  None of
    them is a property of [Object.prototype] or [Array.prototype], and an
    array owns only its indices and [length], so only the own properties of
    an object can answer. *)
Definition field (obj : JSValue) (name : string) : option JSValue :=
  match obj with
  | JObject props => lookupProp props name
  | _ => None
  end.

(** [Object.entries]: the own enumerable properties, an array's under its
    indices written in decimal. *)
Definition entries (v : JSValue) : list (string * JSValue) :=
  match v with
  | JObject props => props
  | JArray elems => imap (fun i x => (pretty i, x)) elems
  | _ => []
  end.

End Json.

(** ** [PrivacyConfig.ts] *)
Module PrivacyConfig.

(** [interface PrivacyConfig]; [None] is an absent (or [undefined]) field. *)
Record PrivacyConfig := {
  version : option float;
  emailMappings : option (gmap string string);
  defaultCalendarId : option string
}.

Definition DEFAULT_PRIVACY_CONFIG : PrivacyConfig :=
  {| version := Some 1%float;
     emailMappings := Some ∅;
     defaultCalendarId := None |}.

End PrivacyConfig.
Export PrivacyConfig.

(** ** [EmailMasker.ts] *)
Module EmailMasker.

(** [interface MaskedEmailResult].  The interface declares [displayName] a
    string; the field holds whatever the lookup in the mappings yields. *)
Record MaskedEmailResult := {
  email : string;
  displayName : option JS.PropValue
}.

(** [maskEmail(email: string): string]. *)
Definition maskEmail (email : string) : string :=
  if negb (JS.truthy email) || negb (JS.includes email "@") then
    (if JS.truthy email then email else "")
  else
    let atIndex := JS.indexOf email "@" in
    let localPart := JS.slice email 0 atIndex in
    let domain := JS.sliceFrom email (atIndex + 1) in
    if JS.len localPart =? 0 then "***@" +:+ domain
    else
      let maskedLocal := JS.charAt localPart 0 +:+ "***" in
      maskedLocal +:+ "@" +:+ domain.

(** [googleDisplayName || undefined], for an argument of type
    [string | undefined | null]. *)
Definition orUndefined (name : option string) : option JS.PropValue :=
  match name with
  | Some s => if JS.truthy s then Some (JS.VString s) else None
  | None => None
  end.

(** [config.emailMappings || {}]. *)
Definition mappingsOf (config : PrivacyConfig) : gmap string string :=
  match emailMappings config with
  | Some m => m
  | None => ∅
  end.

(** [applyEmailPrivacy(email, googleDisplayName, config)]; [None] stands for
    an argument that is [undefined] or [null]. *)
Definition applyEmailPrivacy (email googleDisplayName : option string)
    (config : PrivacyConfig) : MaskedEmailResult :=
  match email with
  | None | Some EmptyString =>
      {| email := ""; displayName := orUndefined googleDisplayName |}
  | Some email =>
      let emailLower := JS.toLowerCase email in
      let mappings := mappingsOf config in
      if JS.hasProperty mappings emailLower then
        {| email := email; displayName := JS.getProperty mappings emailLower |}
      else
        {| email := maskEmail email;
           displayName := orUndefined googleDisplayName |}
  end.

End EmailMasker.

(** ** [PrivacyConfigLoader.ts] *)
Module PrivacyConfigLoader.

(** What a [throw] or a rejected promise carries. *)
Inductive Error :=
| ErrnoException (code : string)  (* an [Error] with a [code], as [fs] rejects with *)
| SyntaxError                     (* what [JSON.parse] throws *)
| OtherError.                     (* any other thrown value *)

Inductive Completion (A : Type) :=
| Return (a : A)
| Throw (e : Error).
Arguments Return {A} a.
Arguments Throw {A} e.

(** [process.env] and [os.homedir()] as [getPrivacyConfigPath] and the loader
    read them; [None] is a variable that is not set. *)
Record ProcessEnv := {
  PRIVACY_CONFIG_PATH : option string;
  XDG_CONFIG_HOME : option string;
  NODE_ENV : option string;
  homedir : string
}.

(** The fields of a [PrivacyConfigLoader] instance. *)
Record Loader := {
  config : option PrivacyConfig;
  configPath : string;
  lastLoadTime : Z
}.

Definition CACHE_TTL : Z := 60 * 1000.

(** What a call lets the outside observe. *)
Inductive Event :=
| ReadFile (path : string)
| StderrWrite (path : string) (error : Error).

(** What one [loadConfig] call meets outside the loader: the two readings
    of [Date.now()], the one of the freshness test and the one stored after
    the load, what [fs.readFile(path, 'utf-8')] settles to, and the process
    environment. *)
Record World := {
  nowAtCheck : Z;
  nowAtStore : Z;
  readFileResult : string -> Completion string;
  processEnv : ProcessEnv
}.

(** Methods run on the loader's fields and the trace of events so far; a
    [throw] keeps the state reached. *)
Definition M (A : Type) : Type :=
  Loader * list Event -> Completion A * (Loader * list Event).

Definition ret {A} (a : A) : M A := fun st => (Return a, st).

Definition bind {A B} (m : M A) (k : A -> M B) : M B :=
  fun st =>
    match m st with
    | (Return a, st') => k a st'
    | (Throw e, st') => (Throw e, st')
    end.

Definition throw {A} (e : Error) : M A := fun st => (Throw e, st).

(** [try { body } catch (error) { handler }]. *)
Definition tryCatch {A} (body : M A) (handler : Error -> M A) : M A :=
  fun st =>
    match body st with
    | (Return a, st') => (Return a, st')
    | (Throw e, st') => handler e st'
    end.

Definition liftCompletion {A} (c : Completion A) : M A :=
  fun st => (c, st).

Definition this : M Loader := fun st => (Return (fst st), st).

Definition emit (ev : Event) : M unit :=
  fun st => (Return tt, (fst st, (snd st ++ [ev])%list)).

Definition setConfig (c : option PrivacyConfig) : M unit :=
  fun st =>
    (Return tt,
     ({| config := c; configPath := configPath (fst st);
         lastLoadTime := lastLoadTime (fst st) |}, snd st)).

Definition setLastLoadTime (t : Z) : M unit :=
  fun st =>
    (Return tt,
     ({| config := config (fst st); configPath := configPath (fst st);
         lastLoadTime := t |}, snd st)).

Notation "'let*' x ':=' m 'in' k" := (bind m (fun x => k))
  (at level 10, x name, m at level 100, k at level 200, only parsing).
Notation "m ';;;' k" := (bind m (fun _ => k))
  (at level 100, k at level 200, right associativity, only parsing).

(** [fs.readFile(path, 'utf-8')], awaited. *)
Definition readFile (w : World) (path : string) : M string :=
  emit (ReadFile path) ;;; liftCompletion (readFileResult w path).

(** A truthy environment variable: set, and not to the empty string. *)
Definition envTruthy (v : option string) : option string :=
  match v with
  | Some s => if JS.truthy s then Some s else None
  | None => None
  end.

(** [error instanceof Error && 'code' in error && error.code === 'ENOENT']. *)
Definition isENOENT (error : Error) : bool :=
  match error with
  | ErrnoException code => String.eqb code "ENOENT"
  | _ => false
  end.

(** [{ ...DEFAULT_PRIVACY_CONFIG }].  The copy is shallow, so it shares the
    default's [emailMappings] object; nothing in these modules writes to that
    object ([validateConfig] installs a fresh one before it fills it), so
    the copy is the default's value. *)
Definition copyDefault : PrivacyConfig := DEFAULT_PRIVACY_CONFIG.

Definition withVersion (v : float) (c : PrivacyConfig) : PrivacyConfig :=
  {| version := Some v; emailMappings := emailMappings c;
     defaultCalendarId := defaultCalendarId c |}.

Definition withEmailMappings (m : gmap string string) (c : PrivacyConfig)
  : PrivacyConfig :=
  {| version := version c; emailMappings := Some m;
     defaultCalendarId := defaultCalendarId c |}.

Definition withDefaultCalendarId (s : string) (c : PrivacyConfig)
  : PrivacyConfig :=
  {| version := version c; emailMappings := emailMappings c;
     defaultCalendarId := Some s |}.

(** One turn of the loop over [Object.entries(obj.emailMappings)]. *)
Definition addMapping (mappings : gmap string string)
    (entry : string * Json.JSValue) : gmap string string :=
  match entry with
  | (email, Json.JString name) =>
      JS.setProperty mappings (JS.toLowerCase email) name
  | _ => mappings
  end.

(** [validateConfig(parsed: unknown): PrivacyConfig]. *)
Definition validateConfig (parsed : Json.JSValue) : PrivacyConfig :=
  if negb (String.eqb (Json.typeof parsed) "object")
     || match parsed with Json.JNull => true | _ => false end
  then copyDefault
  else
    let config := copyDefault in
    let obj := parsed in
    let config :=
      match Json.field obj "version" with
      | Some (Json.JNumber n) => withVersion n config
      | _ => config
      end in
    let config :=
      match Json.field obj "emailMappings" with
      | Some m =>
          if Json.truthy m && String.eqb (Json.typeof m) "object" then
            withEmailMappings (fold_left addMapping (Json.entries m) ∅) config
          else config
      | None => config
      end in
    let config :=
      match Json.field obj "defaultCalendarId" with
      | Some (Json.JString id) =>
          if JS.truthy id then withDefaultCalendarId id config else config
      | _ => config
      end in
    config.

(** [invalidateCache()]. *)
Definition invalidateCache (self : Loader) : Loader :=
  {| config := None; configPath := configPath self; lastLoadTime := 0 |}.

(** [getPath()]. *)
Definition getPath (self : Loader) : string := configPath self.

Section Platform.

(** The library functions of the platform: [JSON.parse], where [None] is a
    thrown [SyntaxError], [path.resolve] and [path.join]. *)
Context (JSON_parse : string -> option Json.JSValue)
        (path_resolve : string -> string)
        (path_join : list string -> string).

(** [getPrivacyConfigPath()]. *)
Definition getPrivacyConfigPath (env : ProcessEnv) : string :=
  match envTruthy (PRIVACY_CONFIG_PATH env) with
  | Some p => path_resolve p
  | None =>
      let configDir :=
        match envTruthy (XDG_CONFIG_HOME env) with
        | Some d => d
        | None => path_join [homedir env; ".config"]
        end in
      path_join [configDir; "stella2211-google-calendar-mcp"; "config.json"]
  end.

(** [new PrivacyConfigLoader()]. *)
Definition newLoader (env : ProcessEnv) : Loader :=
  {| config := None; configPath := getPrivacyConfigPath env;
     lastLoadTime := 0 |}.

(** [getInstance()] on the static field [instance]: the instance to use and
    the field afterwards. *)
Definition getInstance (env : ProcessEnv) (instance : option Loader)
  : Loader * option Loader :=
  match instance with
  | Some l => (l, Some l)
  | None => (newLoader env, Some (newLoader env))
  end.

(** [resetInstance()]. *)
Definition resetInstance (instance : option Loader) : option Loader := None.

Definition parseJSON (text : string) : M Json.JSValue :=
  match JSON_parse text with
  | Some v => ret v
  | None => throw SyntaxError
  end.

(** [this.config = c; this.lastLoadTime = Date.now(); return this.config]. *)
Definition store (w : World) (c : PrivacyConfig) : M PrivacyConfig :=
  setConfig (Some c) ;;;
  setLastLoadTime (nowAtStore w) ;;;
  ret c.

(** The [try]/[catch] of [loadConfig]. *)
Definition reload (w : World) : M PrivacyConfig :=
  tryCatch
    (let* self := this in
     let* fileContent := readFile w (configPath self) in
     let* parsed := parseJSON fileContent in
     store w (validateConfig parsed))
    (fun error =>
       if isENOENT error then store w copyDefault
       else
         let* self := this in
         (if negb (bool_decide (NODE_ENV (processEnv w) = Some "test"))
          then emit (StderrWrite (configPath self) error)
          else ret tt) ;;;
         store w copyDefault).

(** [async loadConfig(): Promise<PrivacyConfig>], awaited: [Return] is the
    value the promise fulfils with, [Throw] a rejection. *)
Definition loadConfig (w : World) : M PrivacyConfig :=
  let* self := this in
  match config self with
  | Some cached =>
      if nowAtCheck w - lastLoadTime self <? CACHE_TTL then ret cached
      else reload w
  | None => reload w
  end.

(** One call on a loader, with a fresh trace. *)
Definition call {A} (m : M A) (self : Loader)
  : Completion A * Loader * list Event :=
  match m (self, []) with
  | (r, (self', evs)) => (r, self', evs)
  end.

(** [loadPrivacyConfig()]: [loadConfig] on the singleton; the static field
    afterwards holds the instance as the call left it. *)
Definition loadPrivacyConfig (w : World) (instance : option Loader)
  : Completion PrivacyConfig * option Loader * list Event :=
  match call (loadConfig w) (fst (getInstance (processEnv w) instance)) with
  | (r, self', evs) => (r, Some self', evs)
  end.

End Platform.

End PrivacyConfigLoader.

(** ** Notions of the specification *)
Module Spec.
Import PrivacyConfigLoader.

(** A non-null object, as [typeof] sees it: an object or an array. *)
Definition isNonNullObject (v : Json.JSValue) : bool :=
  match v with
  | Json.JObject _ | Json.JArray _ => true
  | _ => false
  end.

(** The mappings as the specification rebuilds them: key by key, each key
    lower-cased, an entry kept when its value is a string, a later entry
    overwriting an earlier one under the same lower-cased key. *)
Definition rebuildMappings (entries : list (string * Json.JSValue))
  : gmap string string :=
  fold_left
    (fun acc entry =>
       match entry with
       | (k, Json.JString name) => <[JS.toLowerCase k := name]> acc
       | _ => acc
       end)
    entries ∅.

(** Validation as the specification words it: the default for anything but
    a non-null object; else the default with [version] overridden by a
    number, [emailMappings] by the rebuilt mappings of an object, and
    [defaultCalendarId] by a non-empty string. *)
Definition validateConfigSpec (parsed : Json.JSValue) : PrivacyConfig :=
  if isNonNullObject parsed then
    {| version :=
         match Json.field parsed "version" with
         | Some (Json.JNumber n) => Some n
         | _ => version DEFAULT_PRIVACY_CONFIG
         end;
       emailMappings :=
         match Json.field parsed "emailMappings" with
         | Some m =>
             if isNonNullObject m then Some (rebuildMappings (Json.entries m))
             else emailMappings DEFAULT_PRIVACY_CONFIG
         | None => emailMappings DEFAULT_PRIVACY_CONFIG
         end;
       defaultCalendarId :=
         match Json.field parsed "defaultCalendarId" with
         | Some (Json.JString id) =>
             if decide (id = "") then defaultCalendarId DEFAULT_PRIVACY_CONFIG
             else Some id
         | _ => defaultCalendarId DEFAULT_PRIVACY_CONFIG
         end |}
  else DEFAULT_PRIVACY_CONFIG.

(** The value of the last entry, in enumeration order, that has a string
    value and a key that lower-cases to [k]. *)
Fixpoint lastMapped (k : string) (entries : list (string * Json.JSValue))
  : option string :=
  match entries with
  | [] => None
  | (e, v) :: rest =>
      match lastMapped k rest with
      | Some s => Some s
      | None =>
          match v with
          | Json.JString s =>
              if String.eqb (JS.toLowerCase e) k then Some s else None
          | _ => None
          end
      end
  end.

(** The invariant of the data model: every key of [emailMappings] is
    lower-case. *)
Definition allKeysLowercase (c : PrivacyConfig) : Prop :=
  forall (m : gmap string string) (k : string),
    emailMappings c = Some m -> is_Some (m !! k) -> JS.toLowerCase k = k.

(** A capital letter among the code units: one of A to Z, or a Latin-1
    capital, U+00C0..U+00DE without the multiplication sign U+00D7. *)
Definition isCapital (a : ascii) : bool :=
  JS.includes "ABCDEFGHIJKLMNOPQRSTUVWXYZ" a
  || (let n := N_of_ascii a in
      (192 <=? n)%N && (n <=? 222)%N && negb (n =? 215)%N).

Fixpoint hasCapital (s : string) : bool :=
  match s with
  | EmptyString => false
  | String a s' => isCapital a || hasCapital s'
  end.

(** The invariant of the data model, read on the keys themselves: no key of
    [emailMappings] holds a capital letter. *)
Definition noCapitalKeys (c : PrivacyConfig) : Prop :=
  forall (m : gmap string string) (k : string),
    emailMappings c = Some m -> is_Some (m !! k) -> hasCapital k = false.

(** The cache states: Fresh, against Empty or Stale. *)
Definition fresh (w : World) (self : Loader) : bool :=
  match config self with
  | Some _ => nowAtCheck w - lastLoadTime self <? CACHE_TTL
  | None => false
  end.

(** The clock reading a call ends on: the freshness test's when it answers
    from the cache, the stored one when it loads. *)
Definition completedAt (w : World) (self : Loader) : Z :=
  if fresh w self then nowAtCheck w else nowAtStore w.

Definition result {A} (r : Completion A * Loader * list Event)
  : Completion A := fst (fst r).
Definition after {A} (r : Completion A * Loader * list Event) : Loader :=
  snd (fst r).
Definition events {A} (r : Completion A * Loader * list Event)
  : list Event := snd r.

Section Platform.

Context (JSON_parse : string -> option Json.JSValue)
        (path_resolve : string -> string)
        (path_join : list string -> string).

(** What a load makes of the file. *)
Definition loaded (w : World) (self : Loader) : PrivacyConfig :=
  match readFileResult w (configPath self) with
  | Return text =>
      match JSON_parse text with
      | Some v => validateConfig v
      | None => DEFAULT_PRIVACY_CONFIG
      end
  | Throw _ => DEFAULT_PRIVACY_CONFIG
  end.

(** The diagnostic a load writes: none for a file that is missing or that
    parses, none when [NODE_ENV] is [test], else one warning. *)
Definition diagnostic (w : World) (self : Loader) : list Event :=
  let warn e :=
    if bool_decide (NODE_ENV (processEnv w) = Some "test") then []
    else [StderrWrite (configPath self) e] in
  match readFileResult w (configPath self) with
  | Return text =>
      match JSON_parse text with
      | Some _ => []
      | None => warn SyntaxError
      end
  | Throw e => if isENOENT e then [] else warn e
  end.

(** A run of [loadConfig] calls, one per world, on the same loader: the
    loader afterwards and what each call returned and let observe. *)
Fixpoint loadMany (ws : list World) (self : Loader)
  : Loader * list (Completion PrivacyConfig * list Event) :=
  match ws with
  | [] => (self, [])
  | w :: ws' =>
      let r := call (loadConfig JSON_parse w) self in
      let rest := loadMany ws' (after r) in
      (fst rest, (result r, events r) :: snd rest)
  end.

(** The loaders a process can hold: a new one, and what [loadConfig] and
    [invalidateCache] make of one. *)
Inductive Reachable : Loader -> Prop :=
| reach_new (env : ProcessEnv) :
    Reachable (newLoader path_resolve path_join env)
| reach_load (w : World) (self : Loader) :
    Reachable self ->
    Reachable (after (call (loadConfig JSON_parse w) self))
| reach_invalidate (self : Loader) :
    Reachable self -> Reachable (invalidateCache self).

(** What a process does to its loader after making it: a [loadConfig] call
    in some world, or [invalidateCache]. *)
Inductive Operation :=
| DoLoadConfig (w : World)
| DoInvalidateCache.

Definition operate (self : Loader) (op : Operation) : Loader :=
  match op with
  | DoLoadConfig w => after (call (loadConfig JSON_parse w) self)
  | DoInvalidateCache => invalidateCache self
  end.

(** The loader after a sequence of operations, first to last. *)
Definition operateAll (ops : list Operation) (self : Loader) : Loader :=
  fold_left operate ops self.

End Platform.

End Spec.

(** ** A small platform to run the loader on *)
Module Scenario.
Import PrivacyConfigLoader.

(** [path.join] on segments that need no normalising. *)
Definition join (parts : list string) : string := String.concat "/" parts.

(** [path.resolve] in the working directory [/work], on a path that needs no
    normalising: an absolute path is kept, the empty path is the working
    directory, any other path is taken from there. *)
Definition resolve (p : string) : string :=
  match p with
  | EmptyString => "/work"
  | String "/" _ => p
  | _ => "/work/" +:+ p
  end.

(** [JSON.parse] on a few texts; a [SyntaxError] on the others. *)
Definition parse (text : string) : option Json.JSValue :=
  if String.eqb text "{}" then Some (Json.JObject [])
  else if String.eqb text "[]" then Some (Json.JArray [])
  else if String.eqb text "null" then Some Json.JNull
  else if String.eqb text "1" then Some (Json.JNumber 1%float)
  else None.

Definition env : ProcessEnv :=
  {| PRIVACY_CONFIG_PATH := None;
     XDG_CONFIG_HOME := None;
     NODE_ENV := None;
     homedir := "/home/user" |}.

(** A world whose clock reads [t] and whose file system settles every read
    the same way. *)
Definition worldAt (t : Z) (file : Completion string) : World :=
  {| nowAtCheck := t;
     nowAtStore := t;
     readFileResult := fun _ => file;
     processEnv := env |}.

Definition loader0 : Loader := newLoader resolve join env.

(** The double quote of JSON texts. *)
Definition quote : string := String "034" EmptyString.

(** A config file with one contact under an upper-case key:
    [{ emailMappings : { JOHN@EXAMPLE.COM : John Smith } }], keys and values
    in double quotes. *)
Definition contactsText : string :=
  "{" +:+ quote +:+ "emailMappings" +:+ quote +:+ ":{"
  +:+ quote +:+ "JOHN@EXAMPLE.COM" +:+ quote +:+ ":"
  +:+ quote +:+ "John Smith" +:+ quote +:+ "}}".

(** [JSON.parse] on that text too. *)
Definition parseContacts (text : string) : option Json.JSValue :=
  if String.eqb text contactsText then
    Some (Json.JObject
            [("emailMappings",
              Json.JObject [("JOHN@EXAMPLE.COM", Json.JString "John Smith")])])
  else parse text.

(** Another environment, with a base config directory, and a world in it. *)
Definition envXdg : ProcessEnv :=
  {| PRIVACY_CONFIG_PATH := None;
     XDG_CONFIG_HOME := Some "/srv/conf";
     NODE_ENV := None;
     homedir := "/home/other" |}.

Definition worldXdg (t : Z) (file : Completion string) : World :=
  {| nowAtCheck := t;
     nowAtStore := t;
     readFileResult := fun _ => file;
     processEnv := envXdg |}.

End Scenario.

Example maskEmail_john :
  EmailMasker.maskEmail "john.doe@example.com" = "j***@example.com".
Proof. reflexivity. Qed.

Example maskEmail_nolocal :
  EmailMasker.maskEmail "@example.com" = "***@example.com".
Proof. reflexivity. Qed.

Example maskEmail_noat : EmailMasker.maskEmail "notanemail" = "notanemail".
Proof. reflexivity. Qed.

Example applyEmailPrivacy_null_email :
  EmailMasker.applyEmailPrivacy None (Some "Name") DEFAULT_PRIVACY_CONFIG
  = {| EmailMasker.email := "";
       EmailMasker.displayName := Some (JS.VString "Name") |}.
Proof. reflexivity. Qed.

Example validateConfig_invalid_entries :
  emailMappings
    (PrivacyConfigLoader.validateConfig
       (Json.JObject
          [("emailMappings",
            Json.JObject
              [("Valid@Example.com", Json.JString "Valid Name");
               ("invalid@example.com", Json.JNumber 123%float);
               ("also-invalid@example.com", Json.JNull)])]))
  = Some {["valid@example.com" := "Valid Name"]}.
Proof. reflexivity. Qed.

(** ** Properties of the string primitives *)

Lemma take_app_length (l d : string) :
  JS.take (String.length l) (l +:+ d) = l.
Proof. induction l as [|a l IH]; simpl; [by destruct d | by rewrite IH]. Qed.

Lemma take_all (s : string) : JS.take (String.length s) s = s.
Proof. induction s as [|a s IH]; simpl; [done | by rewrite IH]. Qed.

Lemma drop_app_length (l d : string) :
  JS.drop (String.length l) (l +:+ d) = d.
Proof. induction l as [|a l IH]; simpl; [by destruct d | done]. Qed.

Lemma length_app (l d : string) :
  String.length (l +:+ d) = (String.length l + String.length d)%nat.
Proof. induction l as [|a l IH]; simpl; [done | by rewrite IH]. Qed.

Lemma append_assoc (a b c : string) : (a +:+ b) +:+ c = a +:+ b +:+ c.
Proof.
  induction a as [|x a IH]; [done |].
  change (String x ((a +:+ b) +:+ c) = String x (a +:+ b +:+ c)).
  by rewrite IH.
Qed.

Lemma indexOf_ge (s : string) (c : ascii) : -1 <= JS.indexOf s c.
Proof.
  induction s as [|a s IH]; simpl; [lia |].
  destruct (Ascii.eqb a c); [lia |].
  destruct (Z.ltb_spec (JS.indexOf s c) 0); lia.
Qed.

(** [indexOf] finds the first occurrence: after an [@]-free prefix it answers
    the length of the prefix. *)
Lemma indexOf_first (l d : string) (c : ascii) :
  JS.includes l c = false ->
  JS.indexOf (l +:+ String c d) c = JS.len l.
Proof.
  unfold JS.len. induction l as [|a l IH]; simpl; intros Hl.
  - by rewrite Ascii.eqb_refl.
  - destruct (Ascii.eqb a c); [done |].
    rewrite (IH Hl).
    destruct (Z.ltb_spec (Z.of_nat (String.length l)) 0); lia.
Qed.

Lemma includes_app (l d : string) (c : ascii) :
  JS.includes (l +:+ String c d) c = true.
Proof.
  induction l as [|a l IH]; simpl.
  - by rewrite Ascii.eqb_refl.
  - by destruct (Ascii.eqb a c).
Qed.

(** A string that includes [c] splits at its first occurrence. *)
Lemma includes_split (s : string) (c : ascii) :
  JS.includes s c = true ->
  exists l d, s = l +:+ String c d /\ JS.includes l c = false.
Proof.
  induction s as [|a s IH]; simpl; [done |].
  destruct (Ascii.eqb_spec a c) as [->|Hne]; intros H.
  - by exists "", s.
  - destruct (IH H) as (l & d & -> & Hl).
    exists (String a l), d. split; [done |]. simpl.
    by destruct (Ascii.eqb_spec a c).
Qed.

Lemma slice_prefix (l r : string) :
  JS.slice (l +:+ r) 0 (JS.len l) = l.
Proof.
  unfold JS.slice, JS.clampIndex, JS.len. rewrite length_app.
  change (0 <? 0) with false. cbn iota.
  destruct (Z.ltb_spec (Z.of_nat (String.length l)) 0); [lia |].
  rewrite Z.min_l by lia. rewrite Z.min_l by lia.
  rewrite Z.sub_0_r, Nat2Z.id. simpl. apply take_app_length.
Qed.

Lemma sliceFrom_suffix (l d : string) (c : ascii) :
  JS.sliceFrom (l +:+ String c d) (JS.len l + 1) = d.
Proof.
  unfold JS.sliceFrom, JS.slice, JS.clampIndex, JS.len.
  rewrite length_app. simpl String.length.
  destruct (Z.ltb_spec (Z.of_nat (String.length l) + 1) 0); [lia |].
  destruct (Z.ltb_spec (Z.of_nat (String.length l + S (String.length d))) 0);
    [lia |].
  rewrite Z.min_l by lia. rewrite Z.min_l by lia.
  replace (Z.to_nat (Z.of_nat (String.length l) + 1))
    with (String.length (l +:+ String c "")) by (rewrite length_app; simpl; lia).
  replace (l +:+ String c d) with ((l +:+ String c "") +:+ d)
    by apply append_assoc.
  rewrite drop_app_length.
  replace (Z.to_nat _) with (String.length d) by lia.
  apply take_all.
Qed.

(** ** Properties of [maskEmail] *)

(** On a string split at its first [@], [maskEmail] sees the local part and
    the domain. *)
Lemma maskEmail_split (l d : string) :
  JS.includes l "@" = false ->
  EmailMasker.maskEmail (l +:+ String "@" d)
  = if JS.len l =? 0 then "***@" +:+ d
    else (JS.charAt l 0 +:+ "***") +:+ "@" +:+ d.
Proof.
  intros Hl. unfold EmailMasker.maskEmail.
  rewrite includes_app.
  replace (JS.truthy (l +:+ String "@" d)) with true by (by destruct l).
  cbn [negb orb]. rewrite (indexOf_first _ _ _ Hl). cbv zeta.
  by rewrite slice_prefix, sliceFrom_suffix.
Qed.

(** C4. [maskEmail] is a total function that never raises: it maps the empty
    string to the empty string, returns an [@]-free string unchanged, and on
    a string split at its first [@] into local part and domain it answers
    ["***@" + domain] for an empty local part and the first character of the
    local part followed by ["***@" + domain] otherwise; every string falls
    under one of these cases. *)
Theorem maskEmail_total_spec :
  EmailMasker.maskEmail "" = "" /\
  (forall s, JS.includes s "@" = false -> EmailMasker.maskEmail s = s) /\
  (forall d, EmailMasker.maskEmail ("@" +:+ d) = "***@" +:+ d) /\
  (forall c l d,
      JS.includes (String c l) "@" = false ->
      EmailMasker.maskEmail (String c l +:+ "@" +:+ d)
      = String c "***@" +:+ d) /\
  (forall s,
      JS.includes s "@" = false \/
      exists l d, s = l +:+ "@" +:+ d /\ JS.includes l "@" = false).
Proof.
  split; [done |]. split; [| split; [| split]].
  - intros s Hs. unfold EmailMasker.maskEmail. rewrite Hs.
    rewrite orb_true_r. by destruct s.
  - intros d. by apply (maskEmail_split "" d).
  - intros c l d Hl.
    change (String c l +:+ "@" +:+ d) with (String c l +:+ String "@" d).
    rewrite (maskEmail_split _ d Hl).
    unfold JS.len, JS.charAt, JS.len. simpl String.length.
    destruct (Z.eqb_spec (Z.of_nat (S (String.length l))) 0); [lia |].
    destruct (Z.leb_spec (Z.of_nat (S (String.length l))) 0); [lia |].
    done.
  - intros s. destruct (JS.includes s "@") eqn:Hs; [right | by left].
    by apply includes_split.
Qed.

(** The masking of a usual address, through the fourth case of the theorem. *)
Lemma maskEmail_total_spec_witness :
  JS.includes "john.doe" "@" = false /\
  EmailMasker.maskEmail "john.doe@example.com" = "j***@example.com".
Proof.
  split; [reflexivity |].
  apply (proj1 (proj2 (proj2 (proj2 maskEmail_total_spec)))
           "j"%char "ohn.doe" "example.com").
  reflexivity.
Defined.

(** ** Properties of [applyEmailPrivacy] *)

Import EmailMasker.

(** A name with an [@] in it is no property of [Object.prototype]. *)
Lemma inObjectPrototype_no_at (k : string) :
  JS.inObjectPrototype k = true -> JS.includes k "@" = false.
Proof.
  unfold JS.inObjectPrototype, JS.ObjectPrototypeNames.
  intros H%bool_decide_eq_true.
  repeat (apply elem_of_cons in H as [-> | H]; [reflexivity |]).
  by apply elem_of_nil in H.
Qed.

Lemma lowerUnit_at (a : ascii) :
  Ascii.eqb (JS.lowerUnit a) "@" = Ascii.eqb a "@".
Proof. by destruct a as [[] [] [] [] [] [] [] []]. Qed.

Lemma includes_toLowerCase (s : string) :
  JS.includes (JS.toLowerCase s) "@" = JS.includes s "@".
Proof.
  induction s as [|a s IH]; [done |].
  simpl. by rewrite lowerUnit_at, IH.
Qed.

(** An address the mappings do not own, and whose lower-cased form is no
    inherited name either, is masked, and the outside display name kept. *)
Lemma applyEmailPrivacy_unmapped (email : string) (google : option string)
    (config : PrivacyConfig) :
  mappingsOf config !! JS.toLowerCase email = None ->
  JS.inObjectPrototype (JS.toLowerCase email) = false ->
  applyEmailPrivacy (Some email) google config
  = {| email := maskEmail email; displayName := orUndefined google |}.
Proof.
  intros Hown Hproto. unfold applyEmailPrivacy.
  destruct email as [|a email]; [done |].
  unfold JS.hasProperty, JS.hasOwn. rewrite Hown, Hproto.
  rewrite bool_decide_eq_false_2; [done |]. by intros [? ?].
Qed.

(** In particular every address with an [@] that the mappings do not own. *)
Lemma applyEmailPrivacy_unmapped_address (email : string)
    (google : option string) (config : PrivacyConfig) :
  JS.includes email "@" = true ->
  mappingsOf config !! JS.toLowerCase email = None ->
  applyEmailPrivacy (Some email) google config
  = {| email := maskEmail email; displayName := orUndefined google |}.
Proof.
  intros Hat Hown. apply applyEmailPrivacy_unmapped; [done |].
  destruct (JS.inObjectPrototype (JS.toLowerCase email)) eqn:Hp; [| done].
  apply inObjectPrototype_no_at in Hp.
  rewrite includes_toLowerCase in Hp. congruence.
Qed.

(** C1. At the email ["constructor"], which is no key of the empty mappings
    of the default config, [applyEmailPrivacy] does not answer the outside
    display name ["Alice"]: the [in] test finds the name on
    [Object.prototype], and the display name is what is inherited there. *)
Theorem applyEmailPrivacy_inherited_name :
  mappingsOf DEFAULT_PRIVACY_CONFIG !! JS.toLowerCase "constructor" = None /\
  maskEmail "constructor" = "constructor" /\
  applyEmailPrivacy (Some "constructor") (Some "Alice") DEFAULT_PRIVACY_CONFIG
  = {| email := "constructor";
       displayName := Some (JS.VInherited "constructor") |} /\
  displayName
    (applyEmailPrivacy (Some "constructor") (Some "Alice")
       DEFAULT_PRIVACY_CONFIG)
  <> orUndefined (Some "Alice").
Proof. by repeat split. Qed.

(** C3, as stated, fails at the empty email: when the mappings own the empty
    key, the guard on a falsy email still answers the outside display name. *)
Lemma empty_email_keeps_outside_name :
  ~ (forall (email : string) (google : option string) (config : PrivacyConfig)
            (mappings : gmap string string) (name : string),
        emailMappings config = Some mappings ->
        mappings !! JS.toLowerCase email = Some name ->
        applyEmailPrivacy (Some email) google config
        = {| email := email; displayName := Some (JS.VString name) |}).
Proof.
  intros H.
  specialize (H "" (Some "Alice")
                {| version := None; emailMappings := Some {["" := "Nobody"]};
                   defaultCalendarId := None |}
                {["" := "Nobody"]} "Nobody" eq_refl eq_refl).
  discriminate H.
Qed.

(** C3, amended.  For every non-empty email whose lower-cased form is a key
    of the mappings, and every outside display name, the result keeps the
    email as given and names it as the mappings do. *)
Theorem applyEmailPrivacy_mapped (email : string) (google : option string)
    (config : PrivacyConfig) (mappings : gmap string string) (name : string) :
  email <> "" ->
  emailMappings config = Some mappings ->
  mappings !! JS.toLowerCase email = Some name ->
  applyEmailPrivacy (Some email) google config
  = {| email := email; displayName := Some (JS.VString name) |}.
Proof.
  intros Hne Hcfg Hown. unfold applyEmailPrivacy.
  destruct email as [|a email]; [done |].
  unfold mappingsOf. rewrite Hcfg. cbv zeta.
  unfold JS.hasProperty, JS.hasOwn, JS.getProperty. rewrite Hown.
  by rewrite bool_decide_eq_true_2.
Qed.

(** An upper-case address of a known contact. *)
Lemma applyEmailPrivacy_mapped_witness :
  applyEmailPrivacy (Some "KNOWN@EXAMPLE.COM") (Some "Someone Else")
    {| version := None;
       emailMappings := Some {["known@example.com" := "Known Person"]};
       defaultCalendarId := None |}
  = {| email := "KNOWN@EXAMPLE.COM";
       displayName := Some (JS.VString "Known Person") |}.
Proof.
  apply (applyEmailPrivacy_mapped "KNOWN@EXAMPLE.COM" (Some "Someone Else") _
           {["known@example.com" := "Known Person"]} "Known Person").
  - discriminate.
  - reflexivity.
  - reflexivity.
Defined.

(** ** Properties of [validateConfig] *)

Import PrivacyConfigLoader Spec.

Lemma lowerUnit_idem (a : ascii) : JS.lowerUnit (JS.lowerUnit a) = JS.lowerUnit a.
Proof. by destruct a as [[] [] [] [] [] [] [] []]. Qed.

Lemma toLowerCase_idem (s : string) :
  JS.toLowerCase (JS.toLowerCase s) = JS.toLowerCase s.
Proof.
  induction s as [|a s IH]; [done |].
  simpl. by rewrite lowerUnit_idem, IH.
Qed.

(** Assignment under any name but [__proto__] is insertion. *)
Lemma setProperty_insert (o : gmap string string) (k v : string) :
  k <> "__proto__" -> JS.setProperty o k v = <[k:=v]> o.
Proof.
  intros Hk. unfold JS.setProperty.
  destruct (String.eqb_spec k "__proto__"); [done |].
  by rewrite andb_false_r.
Qed.

(** Assignment under [__proto__] to an object that does not own the name
    leaves the object as it was. *)
Lemma setProperty_proto (o : gmap string string) (v : string) :
  o !! "__proto__" = None -> JS.setProperty o "__proto__" v = o.
Proof.
  intros Ho. unfold JS.setProperty, JS.hasOwn. rewrite Ho.
  rewrite bool_decide_eq_false_2; [done |]. by intros [? ?].
Qed.

Lemma addMapping_lookup (m : gmap string string) (e : string)
    (v : Json.JSValue) (k : string) :
  k <> "__proto__" ->
  addMapping m (e, v) !! k
  = match v with
    | Json.JString s => if String.eqb (JS.toLowerCase e) k then Some s else m !! k
    | _ => m !! k
    end.
Proof.
  intros Hk. destruct v; try done. unfold addMapping.
  destruct (String.eqb_spec (JS.toLowerCase e) k) as [He | He].
  - subst k. rewrite setProperty_insert by done. apply lookup_insert_eq.
  - unfold JS.setProperty.
    destruct (negb _ && _); [done |]. by apply lookup_insert_ne.
Qed.

(** The rebuilt mappings, read under any key but [__proto__]: the last
    string-valued entry under that lower-cased key, if there is one. *)
Lemma rebuild_lookup (entries : list (string * Json.JSValue))
    (m : gmap string string) (k : string) :
  k <> "__proto__" ->
  fold_left addMapping entries m !! k
  = match lastMapped k entries with
    | Some s => Some s
    | None => m !! k
    end.
Proof.
  intros Hk. revert m.
  induction entries as [|[e v] rest IH]; intros m; [done |].
  cbn [fold_left lastMapped]. rewrite IH.
  destruct (lastMapped k rest); [done |].
  rewrite addMapping_lookup by done.
  destruct v; try done. by destruct (String.eqb _ _).
Qed.

(** The rebuilt mappings never own [__proto__]. *)
Lemma rebuild_proto (entries : list (string * Json.JSValue))
    (m : gmap string string) :
  m !! "__proto__" = None ->
  fold_left addMapping entries m !! "__proto__" = None.
Proof.
  revert m. induction entries as [|[e v] rest IH]; intros m Hm; [done |].
  cbn [fold_left]. apply IH.
  destruct v; try done. unfold addMapping.
  destruct (String.eqb_spec (JS.toLowerCase e) "__proto__") as [-> | He].
  - by rewrite setProperty_proto.
  - rewrite setProperty_insert by done. by rewrite lookup_insert_ne.
Qed.

(** Where no string-valued entry has a key that lower-cases to [__proto__],
    the loop builds what the specification describes. *)
Lemma rebuild_agrees (entries : list (string * Json.JSValue)) :
  (forall e s, (e, Json.JString s) ∈ entries ->
               JS.toLowerCase e <> "__proto__") ->
  fold_left addMapping entries ∅ = rebuildMappings entries.
Proof.
  unfold rebuildMappings. generalize (∅ : gmap string string).
  induction entries as [|[e v] rest IH]; intros m H; [done |].
  cbn [fold_left]. rewrite <- IH.
  - f_equal. destruct v; try done. unfold addMapping.
    apply setProperty_insert, (H e s). apply elem_of_cons. by left.
  - intros e' s' Hin. apply (H e' s'). apply elem_of_cons. by right.
Qed.

(** The last of several spellings of a key wins: after any entries, a
    string-valued entry followed only by entries that do not map its
    lower-cased key decides the value under that key. *)
Lemma rebuild_last_wins (pre post : list (string * Json.JSValue))
    (e v : string) :
  JS.toLowerCase e <> "__proto__" ->
  lastMapped (JS.toLowerCase e) post = None ->
  fold_left addMapping (pre ++ (e, Json.JString v) :: post) ∅
    !! JS.toLowerCase e = Some v.
Proof.
  intros Hk Hpost. rewrite fold_left_app. cbn [fold_left].
  rewrite rebuild_lookup by done. rewrite Hpost.
  rewrite addMapping_lookup by done. by rewrite String.eqb_refl.
Qed.

(** Every key of the rebuilt mappings is lower-case. *)
Lemma rebuild_keys_lower (entries : list (string * Json.JSValue))
    (m : gmap string string) :
  (forall k, is_Some (m !! k) -> JS.toLowerCase k = k) ->
  forall k, is_Some (fold_left addMapping entries m !! k) ->
            JS.toLowerCase k = k.
Proof.
  revert m. induction entries as [|[e v] rest IH]; intros m Hm; [done |].
  cbn [fold_left]. apply IH. intros k.
  destruct v; try apply Hm. unfold addMapping, JS.setProperty.
  destruct (negb _ && _); [apply Hm |].
  destruct (decide (JS.toLowerCase e = k)) as [<- | Hne].
  - intros _. apply toLowerCase_idem.
  - rewrite lookup_insert_ne by done. apply Hm.
Qed.

Lemma typeof_object (v : Json.JSValue) :
  negb (String.eqb (Json.typeof v) "object")
  || match v with Json.JNull => true | _ => false end
  = negb (isNonNullObject v).
Proof. by destruct v. Qed.

Lemma truthy_object (v : Json.JSValue) :
  Json.truthy v && String.eqb (Json.typeof v) "object" = isNonNullObject v.
Proof.
  destruct v; try done; simpl.
  - by rewrite andb_false_r.
  - by rewrite andb_false_r.
  - by rewrite andb_false_r.
Qed.

(** The fields of a validated config, one by one. *)
Lemma validateConfig_fields (parsed : Json.JSValue) :
  validateConfig parsed
  = if isNonNullObject parsed then
      {| version :=
           match Json.field parsed "version" with
           | Some (Json.JNumber n) => Some n
           | _ => Some 1%float
           end;
         emailMappings :=
           match Json.field parsed "emailMappings" with
           | Some m =>
               if isNonNullObject m
               then Some (fold_left addMapping (Json.entries m) ∅)
               else Some ∅
           | None => Some ∅
           end;
         defaultCalendarId :=
           match Json.field parsed "defaultCalendarId" with
           | Some (Json.JString id) => if JS.truthy id then Some id else None
           | _ => None
           end |}
    else DEFAULT_PRIVACY_CONFIG.
Proof.
  unfold validateConfig. rewrite typeof_object.
  destruct (isNonNullObject parsed); [| done]. cbn [negb]. cbv zeta.
  destruct (Json.field parsed "emailMappings") as [m |].
  - rewrite truthy_object. destruct (isNonNullObject m).
    + destruct (Json.field parsed "version") as [[] |];
        destruct (Json.field parsed "defaultCalendarId") as [[| | | id | |] |];
        try done; by destruct (JS.truthy id).
    + destruct (Json.field parsed "version") as [[] |];
        destruct (Json.field parsed "defaultCalendarId") as [[| | | id | |] |];
        try done; by destruct (JS.truthy id).
  - destruct (Json.field parsed "version") as [[] |];
      destruct (Json.field parsed "defaultCalendarId") as [[| | | id | |] |];
      try done; by destruct (JS.truthy id).
Qed.

(** Away from [__proto__], validation is what the specification describes. *)
Lemma validateConfig_agrees (parsed : Json.JSValue) :
  (forall m e s,
      Json.field parsed "emailMappings" = Some m ->
      (e, Json.JString s) ∈ Json.entries m ->
      JS.toLowerCase e <> "__proto__") ->
  validateConfig parsed = validateConfigSpec parsed.
Proof.
  intros H. rewrite validateConfig_fields. unfold validateConfigSpec.
  destruct (isNonNullObject parsed); [| done]. f_equal.
  - destruct (Json.field parsed "emailMappings") as [m |]; [| done].
    destruct (isNonNullObject m); [| done].
    f_equal. apply rebuild_agrees. intros e s. by apply H.
  - destruct (Json.field parsed "defaultCalendarId") as [[| | | id | |] |];
      try done.
    by destruct id.
Qed.

Lemma validateConfig_keys_lower (parsed : Json.JSValue) :
  allKeysLowercase (validateConfig parsed).
Proof.
  intros m k. rewrite validateConfig_fields.
  destruct (isNonNullObject parsed); cbn [emailMappings].
  - destruct (Json.field parsed "emailMappings") as [j |].
    + destruct (isNonNullObject j); intros [= <-]; [| by intros [? ?]].
      apply rebuild_keys_lower. by intros ? [? ?].
    + intros [= <-]. by intros [? ?].
  - intros [= <-]. by intros [? ?].
Qed.


(** C5. On a config file whose [emailMappings] has the key [__proto__] with a
    string value, [validateConfig] answers the default config: the
    assignment under [__proto__] reaches the setter of [Object.prototype]
    and stores nothing, where the specification keeps the entry. *)
Theorem validateConfig_drops_proto_entry :
  let parsed :=
    Json.JObject
      [("emailMappings", Json.JObject [("__proto__", Json.JString "Bob")])] in
  validateConfig parsed = DEFAULT_PRIVACY_CONFIG /\
  validateConfigSpec parsed
  = {| version := Some 1%float;
       emailMappings := Some {["__proto__" := "Bob"]};
       defaultCalendarId := None |} /\
  validateConfig parsed <> validateConfigSpec parsed.
Proof.
  cbv zeta. split; [reflexivity |]. split; [reflexivity |].
  intros H. apply (f_equal emailMappings) in H.
  apply (f_equal (fun o => o ≫= (.!! "__proto__"))) in H.
  discriminate H.
Qed.

(** C9. On an [emailMappings] with two spellings of [__proto__], both with a
    string value, [validateConfig] keeps no entry under the lower-cased key,
    where the last one enumerated should decide it. *)
Theorem validateConfig_proto_spellings :
  let input :=
    [("__proto__", Json.JString "first"); ("__PROTO__", Json.JString "last")] in
  let parsed := Json.JObject [("emailMappings", Json.JObject input)] in
  JS.toLowerCase "__PROTO__" = "__proto__" /\
  lastMapped "__proto__" input = Some "last" /\
  emailMappings (validateConfig parsed) = Some ∅.
Proof. cbv zeta. by repeat split. Qed.

(** Lower-casing leaves no capital letter. *)
Lemma isCapital_lowerUnit (a : ascii) : isCapital (JS.lowerUnit a) = false.
Proof. by destruct a as [[] [] [] [] [] [] [] []]. Qed.

Lemma hasCapital_toLowerCase (s : string) :
  hasCapital (JS.toLowerCase s) = false.
Proof.
  induction s as [|a s IH]; [done |].
  cbn [JS.toLowerCase hasCapital]. by rewrite isCapital_lowerUnit, IH.
Qed.

(** No key of the rebuilt mappings holds a capital letter. *)
Lemma rebuild_no_capital (entries : list (string * Json.JSValue))
    (m : gmap string string) :
  (forall k, is_Some (m !! k) -> hasCapital k = false) ->
  forall k, is_Some (fold_left addMapping entries m !! k) ->
            hasCapital k = false.
Proof.
  revert m. induction entries as [|[e v] rest IH]; intros m Hm; [done |].
  cbn [fold_left]. apply IH. intros k.
  destruct v; try apply Hm. unfold addMapping, JS.setProperty.
  destruct (negb _ && _); [apply Hm |].
  destruct (decide (JS.toLowerCase e = k)) as [<- | Hne].
  - intros _. apply hasCapital_toLowerCase.
  - rewrite lookup_insert_ne by done. apply Hm.
Qed.

Lemma validateConfig_no_capital (parsed : Json.JSValue) :
  noCapitalKeys (validateConfig parsed).
Proof.
  intros m k. rewrite validateConfig_fields.
  destruct (isNonNullObject parsed); cbn [emailMappings].
  - destruct (Json.field parsed "emailMappings") as [j |].
    + destruct (isNonNullObject j); intros [= <-]; [| by intros [? ?]].
      apply rebuild_no_capital. by intros ? [? ?].
    + intros [= <-]. by intros [? ?].
  - intros [= <-]. by intros [? ?].
Qed.

(** ** Properties of the loader *)

Section LoaderProperties.

Context (JSON_parse : string -> option Json.JSValue)
        (path_resolve : string -> string)
        (path_join : list string -> string).

(** In the Fresh state a call answers the cached config, reads nothing and
    leaves the loader as it is. *)
Lemma loadConfig_hit (w : World) (self : Loader) (c : PrivacyConfig) :
  fresh w self = true ->
  config self = Some c ->
  call (loadConfig JSON_parse w) self = (Return c, self, []).
Proof.
  unfold fresh. intros Hf Hc. rewrite Hc in Hf.
  unfold call, loadConfig, bind, this. cbn [fst snd].
  rewrite Hc, Hf. by destruct self.
Qed.

(** In the Empty and Stale states a call reads the file once, caches what
    the load makes of it under the stored clock reading, and returns it. *)
Lemma loadConfig_miss (w : World) (self : Loader) :
  fresh w self = false ->
  call (loadConfig JSON_parse w) self
  = (Return (loaded JSON_parse w self),
     {| config := Some (loaded JSON_parse w self);
        configPath := configPath self;
        lastLoadTime := nowAtStore w |},
     ReadFile (configPath self) :: diagnostic JSON_parse w self).
Proof.
  intros Hf.
  assert (call (loadConfig JSON_parse w) self
          = call (reload JSON_parse w) self) as ->.
  { unfold fresh in Hf. unfold call, loadConfig, bind, this. cbn [fst snd].
    destruct (config self); [by rewrite Hf | done]. }
  unfold loaded, diagnostic.
  cbv [call reload tryCatch bind this readFile emit liftCompletion parseJSON
       store setConfig setLastLoadTime ret throw copyDefault fst snd app
       config configPath lastLoadTime].
  destruct (readFileResult w _) as [text | e].
  - destruct (JSON_parse text) as [v |]; [done |].
    cbn [isENOENT]. by destruct (bool_decide _).
  - destruct (isENOENT e); [done |]. by destruct (bool_decide _).
Qed.

Lemma fresh_config (w : World) (self : Loader) :
  fresh w self = true -> exists c, config self = Some c.
Proof. unfold fresh. destruct (config self); [eauto | done]. Qed.

(** Every call fulfils, with the cached config or with what it loaded. *)
Lemma loadConfig_result (w : World) (self : Loader) :
  result (call (loadConfig JSON_parse w) self)
  = Return (if fresh w self then default DEFAULT_PRIVACY_CONFIG (config self)
            else loaded JSON_parse w self).
Proof.
  destruct (fresh w self) eqn:Hf.
  - destruct (fresh_config _ _ Hf) as [c Hc].
    by rewrite (loadConfig_hit _ _ _ Hf Hc), Hc.
  - by rewrite (loadConfig_miss _ _ Hf).
Qed.

Lemma loadConfig_after (w : World) (self : Loader) :
  config (after (call (loadConfig JSON_parse w) self))
  = if fresh w self then config self else Some (loaded JSON_parse w self).
Proof.
  destruct (fresh w self) eqn:Hf.
  - destruct (fresh_config _ _ Hf) as [c Hc].
    by rewrite (loadConfig_hit _ _ _ Hf Hc).
  - by rewrite (loadConfig_miss _ _ Hf).
Qed.

(** C2. A [loadConfig] call never rejects, whatever the loader holds and
    whatever the file system and the parser answer: it fulfils with a
    config.  When the call goes to the file, the config is the default in
    each failure case: the read fails (missing file or any other error), the
    text does not parse, or it parses to something that is not a non-null
    object. *)
Theorem loadConfig_never_rejects (w : World) (self : Loader) :
  exists c : PrivacyConfig,
    result (call (loadConfig JSON_parse w) self) = Return c /\
    (fresh w self = false ->
     (forall e, readFileResult w (configPath self) = Throw e ->
                c = DEFAULT_PRIVACY_CONFIG) /\
     (forall text, readFileResult w (configPath self) = Return text ->
                   JSON_parse text = None ->
                   c = DEFAULT_PRIVACY_CONFIG) /\
     (forall text v, readFileResult w (configPath self) = Return text ->
                     JSON_parse text = Some v ->
                     isNonNullObject v = false ->
                     c = DEFAULT_PRIVACY_CONFIG)).
Proof.
  eexists. split; [apply loadConfig_result |].
  intros Hf. rewrite Hf. unfold loaded. repeat split.
  - by intros e ->.
  - by intros text -> ->.
  - intros text v -> -> Hv. rewrite validateConfig_fields. by rewrite Hv.
Qed.

End LoaderProperties.

(** An empty object in the file, then an unreadable file one minute later. *)
Example loader_run :
  Spec.loadMany Scenario.parse
    [Scenario.worldAt 1000 (Return "{}");
     Scenario.worldAt 2000 (Throw (ErrnoException "EACCES"));
     Scenario.worldAt 61000 (Throw (ErrnoException "EACCES"))]
    Scenario.loader0
  = ({| config := Some DEFAULT_PRIVACY_CONFIG;
        configPath :=
          "/home/user/.config/stella2211-google-calendar-mcp/config.json";
        lastLoadTime := 61000 |},
     [(Return DEFAULT_PRIVACY_CONFIG,
       [ReadFile
          "/home/user/.config/stella2211-google-calendar-mcp/config.json"]);
      (Return DEFAULT_PRIVACY_CONFIG, []);
      (Return DEFAULT_PRIVACY_CONFIG,
       [ReadFile
          "/home/user/.config/stella2211-google-calendar-mcp/config.json";
        StderrWrite
          "/home/user/.config/stella2211-google-calendar-mcp/config.json"
          (ErrnoException "EACCES")])]).
Proof. reflexivity. Qed.

(** A file that does not parse: the call fulfils with the default config. *)
Lemma loadConfig_never_rejects_witness :
  exists c : PrivacyConfig,
    result (call (loadConfig Scenario.parse
                    (Scenario.worldAt 0 (Return "{ invalid json }")))
              Scenario.loader0) = Return c /\
    c = DEFAULT_PRIVACY_CONFIG.
Proof.
  destruct (loadConfig_never_rejects Scenario.parse
              (Scenario.worldAt 0 (Return "{ invalid json }"))
              Scenario.loader0) as [c [Hr Hfail]].
  exists c. split; [exact Hr |].
  destruct (Hfail eq_refl) as [_ [Hparse _]].
  apply (Hparse "{ invalid json }"); reflexivity.
Defined.

Section LoaderInvariants.

Context (JSON_parse : string -> option Json.JSValue)
        (path_resolve : string -> string)
        (path_join : list string -> string).

Abbreviation Reachable := (Spec.Reachable JSON_parse path_resolve path_join).

(** What holds of the default config and of every validated config holds of
    whatever a reachable loader caches. *)
Lemma reachable_cached (P : PrivacyConfig -> Prop) (self : Loader) :
  P DEFAULT_PRIVACY_CONFIG ->
  (forall v, P (validateConfig v)) ->
  Reachable self ->
  forall c, config self = Some c -> P c.
Proof.
  intros Hd Hv Hr. induction Hr as [env | w self Hr IH | self Hr IH];
    intros c; [done | | done].
  rewrite loadConfig_after. destruct (fresh w self); [apply IH |].
  intros [= <-]. unfold loaded.
  destruct (readFileResult w _); [| done].
  by destruct (JSON_parse _).
Qed.

(** ... and of whatever its [loadConfig] returns. *)
Lemma loadConfig_returns (P : PrivacyConfig -> Prop) (w : World)
    (self : Loader) :
  P DEFAULT_PRIVACY_CONFIG ->
  (forall v, P (validateConfig v)) ->
  Reachable self ->
  exists c, result (call (loadConfig JSON_parse w) self) = Return c /\ P c.
Proof.
  intros Hd Hv Hr. eexists. split; [apply loadConfig_result |].
  destruct (fresh w self) eqn:Hf.
  - destruct (fresh_config _ _ Hf) as [c Hc]. rewrite Hc.
    by apply (reachable_cached P self).
  - unfold loaded. destruct (readFileResult w _); [| done].
    by destruct (JSON_parse _).
Qed.

(** C6. Every config that [loadConfig] returns, on a loader the process can
    hold, has only lower-case keys in its [emailMappings], whether it comes
    from the cache, from validation of the file or from the fallback to the
    default: no key holds a capital letter, and lower-casing a key gives the
    key back. *)
Theorem loadConfig_keys_lowercase (w : World) (self : Loader) :
  Reachable self ->
  exists c : PrivacyConfig,
    result (call (loadConfig JSON_parse w) self) = Return c /\
    noCapitalKeys c /\
    allKeysLowercase c.
Proof.
  apply (loadConfig_returns (fun c => noCapitalKeys c /\ allKeysLowercase c)).
  - split; intros m k [= <-]; by intros [? ?].
  - intros v. split.
    + apply validateConfig_no_capital.
    + apply validateConfig_keys_lower.
Qed.


End LoaderInvariants.

(** A new loader, and a file with a contact under the key
    [JOHN@EXAMPLE.COM]: the config returned has the key in lower case. *)
Lemma loadConfig_keys_lowercase_witness :
  exists c : PrivacyConfig,
    result (call (loadConfig Scenario.parseContacts
                    (Scenario.worldAt 0 (Return Scenario.contactsText)))
              Scenario.loader0) = Return c /\
    noCapitalKeys c /\
    allKeysLowercase c /\
    emailMappings c = Some {["john@example.com" := "John Smith"]}.
Proof.
  destruct (loadConfig_keys_lowercase Scenario.parseContacts Scenario.resolve
              Scenario.join
              (Scenario.worldAt 0 (Return Scenario.contactsText))
              Scenario.loader0 (reach_new _ _ _ Scenario.env))
    as (c & Hr & Hcap & Hlow).
  exists c. do 3 (split; [assumption |]).
  vm_compute in Hr. injection Hr as <-. reflexivity.
Defined.


(** ** The freshness window *)

Section CacheWindow.

Context (JSON_parse : string -> option Json.JSValue).

(** A run of calls that all find the cache Fresh returns the cached config
    each time, reads nothing and leaves the loader as it is. *)
Lemma loadMany_fresh (ws : list World) (self : Loader) (c : PrivacyConfig) :
  config self = Some c ->
  Forall (fun w' => nowAtCheck w' < lastLoadTime self + CACHE_TTL) ws ->
  loadMany JSON_parse ws self = (self, map (fun _ => (Return c, [])) ws).
Proof.
  intros Hc Hws. induction Hws as [| w' ws Hw' Hws IH]; [done |].
  cbn [loadMany map].
  rewrite (loadConfig_hit JSON_parse w' self c); [| | done].
  - unfold after, result, events. cbn [fst snd]. by rewrite IH.
  - unfold fresh. rewrite Hc. apply Z.ltb_lt. lia.
Qed.

(** C7, amended.  When a [loadConfig] call reads the file (the cache was
    Empty or Stale) and so stores the clock reading [t] it completes at,
    every further call on the loader at a time before [t + CACHE_TTL], one
    minute, returns the cached config and reads no file; a call at an age of
    [CACHE_TTL] or more reads the file again; and after [invalidateCache]
    the next call reads the file whatever the time. *)
Theorem loadConfig_cache_window (w : World) (self : Loader) :
  fresh w self = false ->
  let r := call (loadConfig JSON_parse w) self in
  let t := nowAtStore w in
  CACHE_TTL = 60000 /\
  ReadFile (configPath self) ∈ events r /\
  completedAt w self = t /\
  lastLoadTime (after r) = t /\
  (forall ws,
      Forall (fun w' => nowAtCheck w' < t + CACHE_TTL) ws ->
      loadMany JSON_parse ws (after r)
      = (after r, map (fun _ => (result r, [])) ws)) /\
  (forall w',
      nowAtCheck w' - t >= CACHE_TTL ->
      ReadFile (configPath self)
        ∈ events (call (loadConfig JSON_parse w') (after r))) /\
  (forall l w',
      ReadFile (configPath l)
        ∈ events (call (loadConfig JSON_parse w') (invalidateCache l))).
Proof.
  intros Hf. cbv zeta. unfold completedAt. rewrite Hf.
  rewrite (loadConfig_miss JSON_parse w self Hf).
  unfold after, result, events. cbn [fst snd lastLoadTime].
  split; [done |]. split; [apply elem_of_cons; by left |].
  split; [done |]. split; [done |]. split; [| split].
  - intros ws Hws. by apply loadMany_fresh.
  - intros w' Hage. rewrite loadConfig_miss.
    + apply elem_of_cons. by left.
    + unfold fresh. cbn [config lastLoadTime]. apply Z.ltb_ge. lia.
  - intros l w'. rewrite loadConfig_miss; [| done].
    apply elem_of_cons. by left.
Qed.

End CacheWindow.

(** A load at time 0; calls at 1 s and at 59.999 s are answered from the
    cache. *)
Lemma loadConfig_cache_window_witness :
  loadMany Scenario.parse
    [Scenario.worldAt 1000 (Return "{}");
     Scenario.worldAt 59999 (Throw (ErrnoException "ENOENT"))]
    (after (call (loadConfig Scenario.parse
                    (Scenario.worldAt 0 (Return "{}")))
              Scenario.loader0))
  = (after (call (loadConfig Scenario.parse
                    (Scenario.worldAt 0 (Return "{}")))
              Scenario.loader0),
     [(Return DEFAULT_PRIVACY_CONFIG, []);
      (Return DEFAULT_PRIVACY_CONFIG, [])]).
Proof.
  apply (proj1 (proj2 (proj2 (proj2 (proj2
           (loadConfig_cache_window Scenario.parse
              (Scenario.worldAt 0 (Return "{}")) Scenario.loader0
              eq_refl)))))).
  repeat constructor.
Defined.

(** C7, as stated, fails for a call that is itself answered from the cache:
    the window runs from the load, not from the last call.  After a load at
    time 0, a call completes at 59 s; a further call at 100 s comes before
    59 s + one minute, and yet it reads the file. *)
Lemma freshness_counts_from_the_load :
  ~ (forall (JSON_parse : string -> option Json.JSValue)
            (path_resolve : string -> string)
            (path_join : list string -> string)
            (self : Loader) (w w' : World),
        Spec.Reachable JSON_parse path_resolve path_join self ->
        nowAtCheck w' < completedAt w self + CACHE_TTL ->
        events (call (loadConfig JSON_parse w')
                  (after (call (loadConfig JSON_parse w) self))) = []).
Proof.
  intros H.
  specialize (H Scenario.parse Scenario.resolve Scenario.join
                (after (call (loadConfig Scenario.parse
                                (Scenario.worldAt 0 (Return "{}")))
                          Scenario.loader0))
                (Scenario.worldAt 59000 (Return "{}"))
                (Scenario.worldAt 100000 (Return "{}"))).
  discriminate H.
  - apply reach_load. apply (reach_new _ _ _ Scenario.env).
  - reflexivity.
Qed.

(** ** The path of the config file *)

Section ConfigPath.

Context (path_resolve : string -> string)
        (path_join : list string -> string).

(** C8, amended.  An override path that is set and not empty decides the
    path, resolved; else a base config directory that is set and not empty
    is joined with the two fixed segments, the directory of the application
    and [config.json]; else the home directory joined with [.config] is
    joined with the same two segments.  A variable set to the empty string
    counts as not set. *)
Theorem getPrivacyConfigPath_precedence (env : ProcessEnv) :
  (forall p,
      PRIVACY_CONFIG_PATH env = Some p -> p <> "" ->
      getPrivacyConfigPath path_resolve path_join env = path_resolve p) /\
  (forall d,
      PRIVACY_CONFIG_PATH env = None \/ PRIVACY_CONFIG_PATH env = Some "" ->
      XDG_CONFIG_HOME env = Some d -> d <> "" ->
      getPrivacyConfigPath path_resolve path_join env
      = path_join [d; "stella2211-google-calendar-mcp"; "config.json"]) /\
  (PRIVACY_CONFIG_PATH env = None \/ PRIVACY_CONFIG_PATH env = Some "" ->
   XDG_CONFIG_HOME env = None \/ XDG_CONFIG_HOME env = Some "" ->
   getPrivacyConfigPath path_resolve path_join env
   = path_join [path_join [homedir env; ".config"];
                "stella2211-google-calendar-mcp"; "config.json"]).
Proof.
  unfold getPrivacyConfigPath. repeat split.
  - intros p -> Hp. by destruct p.
  - intros d Hp -> Hd. destruct Hp as [-> | ->]; by destruct d.
  - intros Hp Hx. by destruct Hp as [-> | ->], Hx as [-> | ->].
Qed.

End ConfigPath.

(** The override wins over the base directory. *)
Lemma getPrivacyConfigPath_precedence_witness :
  getPrivacyConfigPath Scenario.resolve Scenario.join
    {| PRIVACY_CONFIG_PATH := Some "/custom/path/config.json";
       XDG_CONFIG_HOME := Some "/home/user/.myconfig";
       NODE_ENV := None;
       homedir := "/home/user" |}
  = "/custom/path/config.json".
Proof.
  apply (proj1 (getPrivacyConfigPath_precedence Scenario.resolve Scenario.join
                  {| PRIVACY_CONFIG_PATH := Some "/custom/path/config.json";
                     XDG_CONFIG_HOME := Some "/home/user/.myconfig";
                     NODE_ENV := None;
                     homedir := "/home/user" |})
           "/custom/path/config.json").
  - reflexivity.
  - discriminate.
Defined.

(** C8, as stated, fails for a variable that is set to the empty string: the
    override path is then passed over for the base directory. *)
Lemma empty_override_is_passed_over :
  ~ (forall (path_resolve : string -> string)
            (path_join : list string -> string)
            (env : ProcessEnv) (p : string),
        PRIVACY_CONFIG_PATH env = Some p ->
        getPrivacyConfigPath path_resolve path_join env = path_resolve p).
Proof.
  intros H.
  specialize (H Scenario.resolve Scenario.join
                {| PRIVACY_CONFIG_PATH := Some "";
                   XDG_CONFIG_HOME := Some "/home/user/.myconfig";
                   NODE_ENV := None;
                   homedir := "/home/user" |}
                "" eq_refl).
  discriminate H.
Qed.

Example getPrivacyConfigPath_xdg :
  getPrivacyConfigPath Scenario.resolve Scenario.join
    {| PRIVACY_CONFIG_PATH := None;
       XDG_CONFIG_HOME := Some "/home/user/.myconfig";
       NODE_ENV := None;
       homedir := "/home/user" |}
  = "/home/user/.myconfig/stella2211-google-calendar-mcp/config.json".
Proof. reflexivity. Qed.

(** * Further properties of the masker *)

(** With a non-empty local part the mask is its first character, three
    stars and the domain. *)
Lemma maskEmail_local (c : ascii) (l d : string) :
  JS.includes (String c l) "@" = false ->
  maskEmail (String c l +:+ String "@" d) = String c ("***@" +:+ d).
Proof.
  intros Hl. rewrite (maskEmail_split _ d Hl).
  unfold JS.len, JS.charAt, JS.len. simpl String.length.
  destruct (Z.eqb_spec (Z.of_nat (S (String.length l))) 0); [lia |].
  by destruct (Z.leb_spec (Z.of_nat (S (String.length l))) 0); [lia |].
Qed.

Lemma includes_cons_false (c a : ascii) (l : string) :
  JS.includes (String c l) a = false ->
  Ascii.eqb c a = false /\ JS.includes l a = false.
Proof. simpl. by destruct (Ascii.eqb c a). Qed.

(** X1. Two addresses with the same first character and the same domain
    have the same mask, whatever the rest of their local parts: the mask
    tells nothing of the local part beyond its first character. *)
Theorem maskEmail_hides_local_part (c : ascii) (l l' d : string) :
  JS.includes (String c l) "@" = false ->
  JS.includes (String c l') "@" = false ->
  maskEmail (String c l +:+ "@" +:+ d) = maskEmail (String c l' +:+ "@" +:+ d).
Proof.
  intros Hl Hl'.
  change (maskEmail (String c l +:+ String "@" d)
          = maskEmail (String c l' +:+ String "@" d)).
  by rewrite !maskEmail_local.
Qed.

Lemma maskEmail_hides_local_part_witness :
  maskEmail "john.doe@example.com" = maskEmail "jane@example.com".
Proof.
  apply (maskEmail_hides_local_part "j" "ohn.doe" "ane" "example.com");
    reflexivity.
Defined.

(** Masking twice is masking once exactly for the strings that do not start
    with [@]. *)
Lemma maskEmail_twice_iff (s : string) :
  maskEmail (maskEmail s) = maskEmail s <-> JS.charAt s 0 <> "@".
Proof.
  destruct (JS.includes s "@") eqn:Hs.
  - destruct (includes_split s "@" Hs) as (l & d & -> & Hl).
    destruct l as [|c l].
    + rewrite (maskEmail_split "" d eq_refl).
      change (if JS.len "" =? 0 then "***@" +:+ d
              else (JS.charAt "" 0 +:+ "***") +:+ "@" +:+ d)
        with ("***" +:+ String "@" d).
      rewrite (maskEmail_split "***" d eq_refl).
      split; [discriminate | intros H; by destruct H].
    + rewrite (maskEmail_local c l d Hl).
      destruct (includes_cons_false _ _ _ Hl) as [Hc _].
      change (String c ("***@" +:+ d)) with (String c "***" +:+ String "@" d).
      rewrite (maskEmail_local c "***" d) by (simpl; by rewrite Hc).
      split; [| done]. intros _.
      unfold JS.charAt, JS.len.
      change (String.length (String c l +:+ String "@" d))
        with (S (String.length (l +:+ String "@" d))).
      destruct (Z.leb_spec (Z.of_nat (S (String.length (l +:+ String "@" d)))) 0);
        [lia |].
      intros [= ->]. by rewrite Ascii.eqb_refl in Hc.
  - assert (maskEmail s = s) as Hm.
    { unfold maskEmail. rewrite Hs, orb_true_r. by destruct s. }
    rewrite !Hm. split; [| done]. intros _.
    destruct s as [|a s]; [discriminate |].
    destruct (includes_cons_false _ _ _ Hs) as [Ha _].
    unfold JS.charAt, JS.len. simpl String.length.
    destruct (Z.leb_spec (Z.of_nat (S (String.length s))) 0); [lia |].
    intros [= ->]. by rewrite Ascii.eqb_refl in Ha.
Qed.

Lemma charAt_first (c : ascii) (rest : string) :
  JS.charAt (String c rest) 0 = String c "".
Proof.
  unfold JS.charAt, JS.len. simpl String.length.
  by destruct (Z.leb_spec (Z.of_nat (S (String.length rest))) 0); [lia |].
Qed.

(** A mask never starts with [@]. *)
Lemma maskEmail_not_at_start (s : string) : JS.charAt (maskEmail s) 0 <> "@".
Proof.
  destruct (JS.includes s "@") eqn:Hs.
  - destruct (includes_split s "@" Hs) as (l & d & -> & Hl).
    destruct l as [|c l].
    + by rewrite (maskEmail_split "" d eq_refl).
    + rewrite (maskEmail_local c l d Hl), charAt_first.
      destruct (includes_cons_false _ _ _ Hl) as [Hc _].
      intros [= ->]. by rewrite Ascii.eqb_refl in Hc.
  - assert (maskEmail s = s) as ->.
    { unfold maskEmail. rewrite Hs, orb_true_r. by destruct s. }
    destruct s as [|a s]; [discriminate |]. rewrite charAt_first.
    destruct (includes_cons_false _ _ _ Hs) as [Ha _].
    intros [= ->]. by rewrite Ascii.eqb_refl in Ha.
Qed.

(** X2. Masking twice is masking once exactly for the strings that do not
    start with [@].  A string that starts with [@] gets three stars at the
    first masking and a fourth at the second; from the second masking on
    nothing changes, for any string. *)
Theorem maskEmail_idempotent_iff (s : string) :
  (maskEmail (maskEmail s) = maskEmail s <-> JS.charAt s 0 <> "@") /\
  maskEmail (maskEmail (maskEmail s)) = maskEmail (maskEmail s) /\
  (forall d, s = "@" +:+ d ->
             maskEmail s = "***@" +:+ d /\
             maskEmail (maskEmail s) = "****@" +:+ d).
Proof.
  split; [apply maskEmail_twice_iff |]. split.
  - apply maskEmail_twice_iff, maskEmail_not_at_start.
  - intros d ->. change ("@" +:+ d) with ("" +:+ String "@" d).
    rewrite (maskEmail_split "" d eq_refl).
    split; [done |].
    change (if JS.len "" =? 0 then "***@" +:+ d
            else (JS.charAt "" 0 +:+ "***") +:+ "@" +:+ d)
      with ("***" +:+ String "@" d).
    by rewrite (maskEmail_split "***" d eq_refl).
Qed.

(** An address that does not start with [@], and one that does. *)
Lemma maskEmail_idempotent_iff_witness :
  maskEmail (maskEmail "alice@company.org") = maskEmail "alice@company.org"
  /\ maskEmail (maskEmail "@company.org") = "****@company.org"
  /\ maskEmail (maskEmail (maskEmail "@company.org")) = "****@company.org".
Proof.
  split; [| split].
  - apply (proj2 (proj1 (maskEmail_idempotent_iff "alice@company.org"))).
    discriminate.
  - apply (proj2 (proj2 (maskEmail_idempotent_iff "@company.org"))
             "company.org" eq_refl).
  - rewrite (proj1 (proj2 (maskEmail_idempotent_iff "@company.org"))).
    apply (proj2 (proj2 (maskEmail_idempotent_iff "@company.org"))
             "company.org" eq_refl).
Defined.

(** X3. On a string with an [@], the mask keeps everything after the first
    [@] and replaces what is before it by an [@]-free string of at most four
    code units; so the first [@] of the mask is the first [@] of the
    input. *)
Theorem maskEmail_keeps_domain (l d : string) :
  JS.includes l "@" = false ->
  exists l' : string,
    maskEmail (l +:+ "@" +:+ d) = l' +:+ "@" +:+ d /\
    JS.includes l' "@" = false /\
    (String.length l' <= 4)%nat /\
    JS.sliceFrom (maskEmail (l +:+ "@" +:+ d))
      (JS.indexOf (maskEmail (l +:+ "@" +:+ d)) "@" + 1) = d.
Proof.
  intros Hl.
  assert (exists l', maskEmail (l +:+ String "@" d) = l' +:+ String "@" d
                     /\ JS.includes l' "@" = false
                     /\ (String.length l' <= 4)%nat) as (l' & Hm & Hl' & Hlen).
  { destruct l as [|c l].
    - exists "***". rewrite (maskEmail_split "" d eq_refl).
      repeat split; simpl; lia.
    - exists (String c "***"). rewrite (maskEmail_local c l d Hl).
      destruct (includes_cons_false _ _ _ Hl) as [Hc _].
      repeat split; [| simpl; lia]. simpl. by rewrite Hc. }
  exists l'. change (l +:+ "@" +:+ d) with (l +:+ String "@" d).
  rewrite Hm. repeat split; try done.
  by rewrite (indexOf_first _ _ _ Hl'), sliceFrom_suffix.
Qed.

Lemma maskEmail_keeps_domain_witness :
  exists l' : string,
    maskEmail "john.doe@example.com" = l' +:+ "@" +:+ "example.com" /\
    JS.includes l' "@" = false /\
    (String.length l' <= 4)%nat /\
    JS.sliceFrom (maskEmail "john.doe@example.com")
      (JS.indexOf (maskEmail "john.doe@example.com") "@" + 1) = "example.com".
Proof.
  apply (maskEmail_keeps_domain "john.doe" "example.com"). reflexivity.
Defined.

(** * Further properties of [applyEmailPrivacy] *)

(** The email of the result is the mask of the input (the empty string for
    an absent input) unless the lookup finds the lower-cased input in the
    mappings; only then is the input returned as it is, and the display name
    is then what the lookup yields. *)
Lemma applyEmailPrivacy_unmasks_only_found (e google : option string)
    (c : PrivacyConfig) :
  (email (applyEmailPrivacy e google c) = maskEmail (default "" e) /\
   displayName (applyEmailPrivacy e google c) = orUndefined google)
  \/
  (exists s, e = Some s /\ s <> "" /\
             JS.hasProperty (mappingsOf c) (JS.toLowerCase s) = true /\
             email (applyEmailPrivacy e google c) = s /\
             displayName (applyEmailPrivacy e google c)
             = JS.getProperty (mappingsOf c) (JS.toLowerCase s)).
Proof.
  destruct e as [[|a s] |]; [by left | | by left].
  unfold applyEmailPrivacy. cbv zeta.
  destruct (JS.hasProperty _ _) eqn:Hin; [right | by left].
  by exists (String a s).
Qed.

Lemma toLowerCase_empty (s : string) : JS.toLowerCase s = "" -> s = "".
Proof. by destruct s. Qed.

(** X4. The lookup is blind to case: two emails with the same lower-cased
    form get the same display name, and either both are returned as they
    are or both are masked. *)
Theorem applyEmailPrivacy_case_insensitive (e1 e2 : string)
    (google : option string) (c : PrivacyConfig) :
  JS.toLowerCase e1 = JS.toLowerCase e2 ->
  displayName (applyEmailPrivacy (Some e1) google c)
  = displayName (applyEmailPrivacy (Some e2) google c) /\
  ((email (applyEmailPrivacy (Some e1) google c) = e1 /\
    email (applyEmailPrivacy (Some e2) google c) = e2)
   \/
   (email (applyEmailPrivacy (Some e1) google c) = maskEmail e1 /\
    email (applyEmailPrivacy (Some e2) google c) = maskEmail e2)).
Proof.
  intros H. destruct e1 as [|a1 s1].
  - symmetry in H. apply toLowerCase_empty in H as ->. split; [done | by left].
  - destruct e2 as [|a2 s2]; [discriminate |].
    unfold applyEmailPrivacy. cbv zeta. rewrite H.
    destruct (JS.hasProperty _ _); split; try done; [by left | by right].
Qed.

Lemma applyEmailPrivacy_case_insensitive_witness :
  displayName
    (applyEmailPrivacy (Some "Known@Example.COM") None
       {| version := None;
          emailMappings := Some {["known@example.com" := "Known Person"]};
          defaultCalendarId := None |})
  = displayName
      (applyEmailPrivacy (Some "KNOWN@example.com") None
         {| version := None;
            emailMappings := Some {["known@example.com" := "Known Person"]};
            defaultCalendarId := None |}).
Proof.
  apply (applyEmailPrivacy_case_insensitive "Known@Example.COM"
           "KNOWN@example.com").
  reflexivity.
Defined.

(** * Further properties of [validateConfig] *)

Lemma lastMapped_Some (k : string) (entries : list (string * Json.JSValue))
    (s : string) :
  lastMapped k entries = Some s ->
  exists e, (e, Json.JString s) ∈ entries /\ JS.toLowerCase e = k.
Proof.
  induction entries as [|[e v] rest IH]; [done |].
  cbn [lastMapped]. destruct (lastMapped k rest) as [s' |].
  - intros [= ->]. destruct (IH eq_refl) as (e' & Hin & He').
    exists e'. split; [| done]. apply elem_of_cons. by right.
  - destruct v; try done.
    destruct (String.eqb_spec (JS.toLowerCase e) k); [| done].
    intros [= ->]. exists e. split; [| done]. apply elem_of_cons. by left.
Qed.

Lemma lastMapped_None (k : string) (entries : list (string * Json.JSValue)) :
  lastMapped k entries = None ->
  forall e s, (e, Json.JString s) ∈ entries -> JS.toLowerCase e <> k.
Proof.
  induction entries as [|[e v] rest IH]; intros Hn e' s' Hin.
  - by apply elem_of_nil in Hin.
  - cbn [lastMapped] in Hn. destruct (lastMapped k rest); [done |].
    apply elem_of_cons in Hin as [[= -> <-] | Hin];
      [| by apply (IH eq_refl e' s')].
    by destruct (String.eqb_spec (JS.toLowerCase e) k).
Qed.

(** The [emailMappings] of a validated config, when the input has the field
    and it is an object. *)
Lemma validateConfig_mappings (parsed mj : Json.JSValue) :
  Json.field parsed "emailMappings" = Some mj ->
  isNonNullObject mj = true ->
  emailMappings (validateConfig parsed)
  = Some (fold_left addMapping (Json.entries mj) ∅).
Proof.
  intros Hf Hm. rewrite validateConfig_fields.
  destruct parsed; try done. cbn [isNonNullObject emailMappings].
  by rewrite Hf, Hm.
Qed.

(** X5. The mappings of a validated config hold nothing but what the input
    gave: every entry has a string-valued input entry whose key lower-cases
    to its key and whose value is its value; and every string-valued input
    entry whose key does not lower-case to [__proto__] has its lower-cased
    key among the keys.  The mappings never own [__proto__]. *)
Theorem validateConfig_mappings_from_input (parsed mj : Json.JSValue) :
  Json.field parsed "emailMappings" = Some mj ->
  isNonNullObject mj = true ->
  exists m : gmap string string,
    emailMappings (validateConfig parsed) = Some m /\
    (forall k v, m !! k = Some v ->
                 exists e, (e, Json.JString v) ∈ Json.entries mj
                           /\ JS.toLowerCase e = k) /\
    (forall e v, (e, Json.JString v) ∈ Json.entries mj ->
                 JS.toLowerCase e <> "__proto__" ->
                 is_Some (m !! JS.toLowerCase e)) /\
    m !! "__proto__" = None.
Proof.
  intros Hf Hm. eexists. split; [by apply validateConfig_mappings |].
  split; [| split].
  - intros k v Hk. destruct (decide (k = "__proto__")) as [-> | Hne].
    + by rewrite rebuild_proto in Hk.
    + rewrite rebuild_lookup in Hk by done.
      destruct (lastMapped k (Json.entries mj)) as [s |] eqn:Hl; [| done].
      injection Hk as ->. by apply lastMapped_Some.
  - intros e v Hin Hne. rewrite rebuild_lookup by done.
    destruct (lastMapped _ _) as [s |] eqn:Hl; [by eexists |].
    by destruct (lastMapped_None _ _ Hl e v Hin).
  - by apply rebuild_proto.
Qed.

Lemma validateConfig_mappings_from_input_witness :
  exists m : gmap string string,
    emailMappings
      (validateConfig
         (Json.JObject
            [("emailMappings",
              Json.JObject [("John@Example.com", Json.JString "John");
                            ("n", Json.JNull)])]))
    = Some m /\
    m !! "john@example.com" = Some "John" /\
    m !! "n" = None.
Proof.
  destruct (validateConfig_mappings_from_input
              (Json.JObject
                 [("emailMappings",
                   Json.JObject [("John@Example.com", Json.JString "John");
                                 ("n", Json.JNull)])])
              (Json.JObject [("John@Example.com", Json.JString "John");
                             ("n", Json.JNull)])
              eq_refl eq_refl) as (m & Hm & _).
  exists m. split; [exact Hm |]. injection Hm as <-. by split.
Defined.

Lemma lookupProp_skip (pre post : list (string * Json.JSValue))
    (name k : string) (v : Json.JSValue) :
  k <> name ->
  Json.lookupProp (pre ++ (name, v) :: post) k = Json.lookupProp (pre ++ post) k.
Proof.
  intros Hk. induction pre as [|[k' v'] pre IH]; simpl.
  - by destruct (String.eqb_spec name k).
  - by rewrite IH.
Qed.

(** X6. A field under any name but [version], [emailMappings] and
    [defaultCalendarId] has no effect on the validated config, wherever it
    stands in the object and whatever its value. *)
Theorem validateConfig_ignores_unknown_fields
    (pre post : list (string * Json.JSValue)) (name : string)
    (v : Json.JSValue) :
  name <> "version" ->
  name <> "emailMappings" ->
  name <> "defaultCalendarId" ->
  validateConfig (Json.JObject (pre ++ (name, v) :: post))
  = validateConfig (Json.JObject (pre ++ post)).
Proof.
  intros H1 H2 H3. rewrite !validateConfig_fields.
  cbn [isNonNullObject Json.field].
  by rewrite !lookupProp_skip.
Qed.

Lemma validateConfig_ignores_unknown_fields_witness :
  validateConfig
    (Json.JObject [("version", Json.JNumber 2%float);
                   ("comment", Json.JString "mine");
                   ("defaultCalendarId", Json.JString "work")])
  = validateConfig
      (Json.JObject [("version", Json.JNumber 2%float);
                     ("defaultCalendarId", Json.JString "work")]).
Proof.
  apply (validateConfig_ignores_unknown_fields
           [("version", Json.JNumber 2%float)]
           [("defaultCalendarId", Json.JString "work")]
           "comment" (Json.JString "mine")); discriminate.
Defined.

Lemma validateConfig_calendar_nonempty (parsed : Json.JSValue) :
  defaultCalendarId (validateConfig parsed) <> Some "".
Proof.
  rewrite validateConfig_fields.
  destruct (isNonNullObject parsed); [| done]. cbn [defaultCalendarId].
  destruct (Json.field parsed "defaultCalendarId") as [[| | | id | |] |];
    try done.
  by destruct id.
Qed.

(** The lower-cased form of a string with an [@] is not [__proto__]. *)
Lemma toLowerCase_at_not_proto (s : string) :
  JS.includes s "@" = true -> JS.toLowerCase s <> "__proto__".
Proof.
  intros Hs Heq. rewrite <- includes_toLowerCase, Heq in Hs. discriminate Hs.
Qed.

(** X7. From the config file to the answer.  For a config validated from an
    object whose [emailMappings] is an object, and an email with an [@]: if
    some string-valued entry has a key equal to the email but for case, the
    email is returned as given, named by the last such entry; if none has,
    the email is masked and the outside display name kept. *)
Theorem validated_mappings_decide (parsed mj : Json.JSValue)
    (address : string) (google : option string) :
  Json.field parsed "emailMappings" = Some mj ->
  isNonNullObject mj = true ->
  JS.includes address "@" = true ->
  applyEmailPrivacy (Some address) google (validateConfig parsed)
  = match lastMapped (JS.toLowerCase address) (Json.entries mj) with
    | Some name =>
        {| email := address; displayName := Some (JS.VString name) |}
    | None =>
        {| email := maskEmail address; displayName := orUndefined google |}
    end.
Proof.
  intros Hf Hm Hat.
  assert (mappingsOf (validateConfig parsed) !! JS.toLowerCase address
          = lastMapped (JS.toLowerCase address) (Json.entries mj)) as Hlook.
  { unfold mappingsOf. rewrite (validateConfig_mappings _ _ Hf Hm).
    rewrite rebuild_lookup by by apply toLowerCase_at_not_proto.
    by destruct (lastMapped _ _). }
  destruct (lastMapped _ _) as [name |].
  - destruct address as [|a address]; [done |].
    unfold applyEmailPrivacy. cbv zeta.
    unfold JS.hasProperty, JS.hasOwn, JS.getProperty. rewrite Hlook.
    by rewrite bool_decide_eq_true_2.
  - by apply applyEmailPrivacy_unmapped_address.
Qed.

Lemma validated_mappings_decide_witness :
  applyEmailPrivacy (Some "JOHN@example.com") (Some "Johnny")
    (validateConfig
       (Json.JObject
          [("emailMappings",
            Json.JObject [("john@EXAMPLE.com", Json.JString "old");
                          ("John@Example.com", Json.JString "John Smith")])]))
  = {| email := "JOHN@example.com";
       displayName := Some (JS.VString "John Smith") |}.
Proof.
  apply (validated_mappings_decide
           (Json.JObject
              [("emailMappings",
                Json.JObject
                  [("john@EXAMPLE.com", Json.JString "old");
                   ("John@Example.com", Json.JString "John Smith")])])
           (Json.JObject [("john@EXAMPLE.com", Json.JString "old");
                          ("John@Example.com", Json.JString "John Smith")])
           "JOHN@example.com" (Some "Johnny")); reflexivity.
Defined.

(** * Further properties of the loader *)

Section LoaderFurther.

Context (JSON_parse : string -> option Json.JSValue)
        (path_resolve : string -> string)
        (path_join : list string -> string).

Abbreviation Reachable' :=
  (Spec.Reachable JSON_parse path_resolve path_join).

(** X8. No config that [loadConfig] returns, on a loader the process can
    hold, has the empty string for its [defaultCalendarId]: the field is
    absent or a non-empty string. *)
Theorem loadConfig_calendar_nonempty (w : World) (self : Loader) :
  Reachable' self ->
  exists c : PrivacyConfig,
    result (call (loadConfig JSON_parse w) self) = Return c /\
    defaultCalendarId c <> Some "".
Proof.
  apply (loadConfig_returns JSON_parse path_resolve path_join
           (fun c => defaultCalendarId c <> Some "")).
  - done.
  - apply validateConfig_calendar_nonempty.
Qed.

(** No operation moves the path of a loader. *)
Lemma operate_path (self : Loader) (op : Operation) :
  configPath (operate JSON_parse self op) = configPath self.
Proof.
  destruct op as [w |]; [| done]. cbn [operate].
  destruct (fresh w self) eqn:Hf.
  - destruct (fresh_config _ _ Hf) as [c Hc].
    by rewrite (loadConfig_hit _ _ _ _ Hf Hc).
  - by rewrite (loadConfig_miss _ _ _ Hf).
Qed.

(** X9. The path is resolved once, when the loader is made: after any
    sequence of [loadConfig] calls, in whatever worlds and environments, and
    of [invalidateCache] calls, [getPath] on a loader made in the
    environment [env] still answers [getPrivacyConfigPath] of [env]; no
    sequence of operations moves the path of any loader. *)
Theorem getPath_fixed (env : ProcessEnv) (ops : list Operation) :
  getPath (operateAll JSON_parse ops (newLoader path_resolve path_join env))
  = getPrivacyConfigPath path_resolve path_join env
  /\
  forall self : Loader,
    getPath (operateAll JSON_parse ops self) = getPath self.
Proof.
  assert (forall self, getPath (operateAll JSON_parse ops self) = getPath self)
    as Hfix.
  { unfold operateAll, getPath.
    induction ops as [|op ops IH]; intros self; [done |].
    cbn [fold_left]. by rewrite IH, operate_path. }
  split; [| exact Hfix]. by rewrite Hfix.
Qed.

(** X10. A call reads the file at most once, at the loader's path and
    nowhere else, and writes at most one warning, after the read: its trace
    is empty when the cache is Fresh, and else the read alone or the read
    and one warning. *)
Theorem loadConfig_events_shape (w : World) (self : Loader) :
  (fresh w self = true /\
   events (call (loadConfig JSON_parse w) self) = [])
  \/
  (fresh w self = false /\
   (events (call (loadConfig JSON_parse w) self)
    = [ReadFile (configPath self)]
    \/ exists e,
        events (call (loadConfig JSON_parse w) self)
        = [ReadFile (configPath self); StderrWrite (configPath self) e])).
Proof.
  destruct (fresh w self) eqn:Hf; [left | right]; (split; [done |]).
  - destruct (fresh_config _ _ Hf) as [c Hc].
    by rewrite (loadConfig_hit _ _ _ _ Hf Hc).
  - rewrite (loadConfig_miss _ _ _ Hf). unfold events, diagnostic. cbn [snd].
    destruct (readFileResult w _) as [text | e].
    + destruct (JSON_parse text); [by left |].
      destruct (bool_decide _); [by left | right; by eexists].
    + destruct (isENOENT e); [by left |].
      destruct (bool_decide _); [by left | right; by eexists].
Qed.

(** X11. When a warning is written.  A call warns of an error at a path
    exactly when the cache is not Fresh, the path is the loader's,
    [NODE_ENV] is not [test], and either the read failed with that error and
    it is no [ENOENT], or the text read does not parse and the error is the
    [SyntaxError].  A missing file, and a file that parses to anything at
    all, are silent. *)
Theorem loadConfig_warns_iff (w : World) (self : Loader) (p : string)
    (e : Error) :
  StderrWrite p e ∈ events (call (loadConfig JSON_parse w) self)
  <->
  fresh w self = false /\
  p = configPath self /\
  NODE_ENV (processEnv w) <> Some "test" /\
  ((readFileResult w (configPath self) = Throw e /\ isENOENT e = false)
   \/ (e = SyntaxError /\
       exists text, readFileResult w (configPath self) = Return text
                    /\ JSON_parse text = None)).
Proof.
  destruct (fresh w self) eqn:Hf.
  - destruct (fresh_config _ _ Hf) as [c Hc].
    rewrite (loadConfig_hit _ _ _ _ Hf Hc). unfold events. cbn [snd].
    split; [intros H; by apply elem_of_nil in H | by intros [? _]].
  - rewrite (loadConfig_miss _ _ _ Hf). unfold events, diagnostic. cbn [snd].
    rewrite elem_of_cons.
    destruct (readFileResult w _) as [text | e'].
    + destruct (JSON_parse text) as [v |] eqn:Hp.
      * split.
        -- intros [[=] | H]. by apply elem_of_nil in H.
        -- intros (_ & _ & _ & [[[=] _] | [_ (t & [= <-] & Hn)]]). congruence.
      * destruct (bool_decide_reflect (NODE_ENV (processEnv w) = Some "test"))
          as [Ht | Ht].
        -- split.
           ++ intros [[=] | H]. by apply elem_of_nil in H.
           ++ by intros (_ & _ & Hne & _).
        -- split.
           ++ intros [[=] | H]. apply list_elem_of_singleton in H as [= -> ->].
              do 3 (split; [done |]). right. split; [done |]. by exists text.
           ++ intros (_ & -> & _ & [[[=] _] | [-> _]]).
              right. by apply list_elem_of_singleton.
    + destruct (isENOENT e') eqn:He.
      * split.
        -- intros [[=] | H]. by apply elem_of_nil in H.
        -- intros (_ & _ & _ & [[[= <-] Hn] | [_ (t & [=] & _)]]). congruence.
      * destruct (bool_decide_reflect (NODE_ENV (processEnv w) = Some "test"))
          as [Ht | Ht].
        -- split.
           ++ intros [[=] | H]. by apply elem_of_nil in H.
           ++ by intros (_ & _ & Hne & _).
        -- split.
           ++ intros [[=] | H]. apply list_elem_of_singleton in H as [= -> ->].
              do 3 (split; [done |]). by left.
           ++ intros (_ & -> & _ & [[[= <-] _] | [_ (t & [=] & _)]]).
              right. by apply list_elem_of_singleton.
Qed.

(** X12. A failed load is cached like a good one: after a call whose read
    failed, every call before the minute is over answers the default config
    without going to the file, whatever the file holds by then. *)
Theorem failed_load_is_cached (w w' : World) (self : Loader) (e : Error) :
  fresh w self = false ->
  readFileResult w (configPath self) = Throw e ->
  nowAtCheck w' < nowAtStore w + CACHE_TTL ->
  call (loadConfig JSON_parse w') (after (call (loadConfig JSON_parse w) self))
  = (Return DEFAULT_PRIVACY_CONFIG,
     after (call (loadConfig JSON_parse w) self), []).
Proof.
  intros Hf He Hlt. rewrite (loadConfig_miss _ _ _ Hf).
  unfold after, loaded. cbn [fst snd]. rewrite He.
  apply loadConfig_hit; [| done].
  unfold fresh. cbn [config lastLoadTime]. apply Z.ltb_lt. lia.
Qed.

Lemma loadConfig_outcome (w : World) (self : Loader) :
  exists c : PrivacyConfig,
    result (call (loadConfig JSON_parse w) self) = Return c /\
    config (after (call (loadConfig JSON_parse w) self)) = Some c /\
    configPath (after (call (loadConfig JSON_parse w) self))
    = configPath self.
Proof.
  destruct (fresh w self) eqn:Hf.
  - destruct (fresh_config _ _ Hf) as [c Hc]. exists c.
    by rewrite (loadConfig_hit _ _ _ _ Hf Hc).
  - eexists. by rewrite (loadConfig_miss _ _ _ Hf).
Qed.

(** X13. What a call returns is what the loader holds afterwards, whatever
    it held before, and the call leaves the path alone. *)
Theorem loadConfig_caches_result (w : World) (self : Loader) :
  exists c : PrivacyConfig,
    result (call (loadConfig JSON_parse w) self) = Return c /\
    config (after (call (loadConfig JSON_parse w) self)) = Some c /\
    configPath (after (call (loadConfig JSON_parse w) self))
    = configPath self.
Proof.
  destruct (fresh w self) eqn:Hf.
  - destruct (fresh_config _ _ Hf) as [c Hc]. exists c.
    by rewrite (loadConfig_hit _ _ _ _ Hf Hc).
  - exists (loaded JSON_parse w self). by rewrite (loadConfig_miss _ _ _ Hf).
Qed.

(** X14. A load does not depend on what was cached before: two loaders with
    the same path, both Empty or Stale, end a call in the same world with
    the same result, the same fields and the same trace. *)
Theorem reload_forgets_cache (w : World) (l1 l2 : Loader) :
  fresh w l1 = false ->
  fresh w l2 = false ->
  configPath l1 = configPath l2 ->
  call (loadConfig JSON_parse w) l1 = call (loadConfig JSON_parse w) l2.
Proof.
  intros H1 H2 Hp. rewrite !loadConfig_miss by done.
  unfold loaded, diagnostic. by rewrite Hp.
Qed.

(** The singleton.  Once [getInstance] has answered, it answers the
    same instance, whatever the environment has become, until
    [resetInstance]; after that it makes a new loader in the environment of
    the day. *)
Lemma getInstance_singleton (env env' : ProcessEnv)
    (instance : option Loader) :
  getInstance path_resolve path_join env'
    (snd (getInstance path_resolve path_join env instance))
  = getInstance path_resolve path_join env instance
  /\
  fst (getInstance path_resolve path_join env'
         (resetInstance (snd (getInstance path_resolve path_join env instance))))
  = newLoader path_resolve path_join env'.
Proof. by destruct instance. Qed.

(** X15. [loadPrivacyConfig] never rejects and leaves the singleton holding
    what it returned; a second call before the minute is over returns the
    same config without reading, whatever the environment has become. *)
Theorem loadPrivacyConfig_once (w w' : World) (instance : option Loader) :
  exists (c : PrivacyConfig) (l : Loader) (evs : list Event),
    loadPrivacyConfig JSON_parse path_resolve path_join w instance
    = (Return c, Some l, evs) /\
    config l = Some c /\
    (nowAtCheck w' < lastLoadTime l + CACHE_TTL ->
     loadPrivacyConfig JSON_parse path_resolve path_join w' (Some l)
     = (Return c, Some l, [])).
Proof.
  unfold loadPrivacyConfig.
  set (self := fst (getInstance path_resolve path_join (processEnv w) instance)).
  destruct (loadConfig_outcome w self) as (c & Hr & Hc & _).
  destruct (call (loadConfig JSON_parse w) self) as [[r l] evs] eqn:Hcall.
  unfold result, after in Hr, Hc. cbn [fst snd] in Hr, Hc. subst r.
  exists c, l, evs. split; [done |]. split; [done |].
  intros Hlt. cbn [getInstance fst].
  rewrite (loadConfig_hit _ _ _ c); [done | | done].
  unfold fresh. rewrite Hc. apply Z.ltb_lt. lia.
Qed.

End LoaderFurther.

(** A new loader, and a file holding an empty object. *)
Lemma loadConfig_calendar_nonempty_witness :
  exists c : PrivacyConfig,
    result (call (loadConfig Scenario.parse
                    (Scenario.worldAt 0 (Return "{}")))
              Scenario.loader0) = Return c /\
    defaultCalendarId c <> Some "".
Proof.
  apply (loadConfig_calendar_nonempty Scenario.parse Scenario.resolve
           Scenario.join).
  apply (reach_new _ _ _ Scenario.env).
Defined.

(** A loader made in one environment, then used in another, where the path
    would resolve elsewhere: it loads, is invalidated and loads again, and
    keeps the path it was made with. *)
Lemma getPath_fixed_witness :
  getPath
    (operateAll Scenario.parse
       [DoLoadConfig (Scenario.worldXdg 0 (Return "{}"));
        DoInvalidateCache;
        DoLoadConfig (Scenario.worldXdg 9 (Return "[]"))]
       (newLoader Scenario.resolve Scenario.join Scenario.env))
  = "/home/user/.config/stella2211-google-calendar-mcp/config.json"
  /\
  getPrivacyConfigPath Scenario.resolve Scenario.join Scenario.envXdg
  = "/srv/conf/stella2211-google-calendar-mcp/config.json".
Proof.
  split; [| reflexivity].
  apply (proj1 (getPath_fixed Scenario.parse Scenario.resolve Scenario.join
                  Scenario.env
                  [DoLoadConfig (Scenario.worldXdg 0 (Return "{}"));
                   DoInvalidateCache;
                   DoLoadConfig (Scenario.worldXdg 9 (Return "[]"))])).
Defined.

(** An unreadable file, outside of tests: one warning, with the error. *)
Lemma loadConfig_warns_iff_witness :
  StderrWrite (configPath Scenario.loader0) (ErrnoException "EACCES")
  ∈ events (call (loadConfig Scenario.parse
                    (Scenario.worldAt 0 (Throw (ErrnoException "EACCES"))))
              Scenario.loader0).
Proof.
  apply (proj2 (loadConfig_warns_iff Scenario.parse
                  (Scenario.worldAt 0 (Throw (ErrnoException "EACCES")))
                  Scenario.loader0 (configPath Scenario.loader0)
                  (ErrnoException "EACCES"))).
  split; [reflexivity |]. split; [reflexivity |]. split; [discriminate |].
  left. split; reflexivity.
Defined.

(** The file is missing at time 0 and there half a minute later. *)
Lemma failed_load_is_cached_witness :
  call (loadConfig Scenario.parse (Scenario.worldAt 30000 (Return "{}")))
    (after (call (loadConfig Scenario.parse
                    (Scenario.worldAt 0 (Throw (ErrnoException "ENOENT"))))
              Scenario.loader0))
  = (Return DEFAULT_PRIVACY_CONFIG,
     after (call (loadConfig Scenario.parse
                    (Scenario.worldAt 0 (Throw (ErrnoException "ENOENT"))))
              Scenario.loader0),
     []).
Proof.
  apply (failed_load_is_cached Scenario.parse
           (Scenario.worldAt 0 (Throw (ErrnoException "ENOENT")))
           (Scenario.worldAt 30000 (Return "{}"))
           Scenario.loader0 (ErrnoException "ENOENT")); reflexivity.
Defined.

(** A new loader and one whose cache went stale, at the same path. *)
Lemma reload_forgets_cache_witness :
  call (loadConfig Scenario.parse (Scenario.worldAt 90000 (Return "[]")))
    Scenario.loader0
  = call (loadConfig Scenario.parse (Scenario.worldAt 90000 (Return "[]")))
      (after (call (loadConfig Scenario.parse
                      (Scenario.worldAt 0 (Return "1")))
                Scenario.loader0)).
Proof.
  apply (reload_forgets_cache Scenario.parse
           (Scenario.worldAt 90000 (Return "[]"))); reflexivity.
Defined.

(** The first call makes the singleton; the second comes a second later. *)
Lemma loadPrivacyConfig_once_witness :
  exists (c : PrivacyConfig) (l : Loader) (evs : list Event),
    loadPrivacyConfig Scenario.parse Scenario.resolve Scenario.join
      (Scenario.worldAt 0 (Return "{}")) None
    = (Return c, Some l, evs) /\
    loadPrivacyConfig Scenario.parse Scenario.resolve Scenario.join
      (Scenario.worldAt 1000 (Throw OtherError)) (Some l)
    = (Return c, Some l, []).
Proof.
  destruct (loadPrivacyConfig_once Scenario.parse Scenario.resolve
              Scenario.join (Scenario.worldAt 0 (Return "{}"))
              (Scenario.worldAt 1000 (Throw OtherError)) None)
    as (c & l & evs & Hfirst & _ & Hsecond).
  exists c, l, evs. split; [exact Hfirst |]. apply Hsecond.
  injection Hfirst as _ <- _. reflexivity.
Defined.

(** * An array for [emailMappings] *)

(** The decimal writing of a number is its own lower-case form and has no
    underscore. *)
Lemma pretty_N_go_plain (x : N) (s : string) :
  JS.toLowerCase s = s /\ JS.includes s "_" = false ->
  JS.toLowerCase (pretty_N_go x s) = pretty_N_go x s
  /\ JS.includes (pretty_N_go x s) "_" = false.
Proof.
  revert s. induction (N.lt_wf_0 x) as [x _ IH]; intros s [Hl Hu].
  assert (x = 0 \/ 0 < x)%N as [-> | Hx] by lia.
  - by rewrite pretty_N_go_0.
  - rewrite pretty_N_go_step by done. apply IH; [by apply N.div_lt |].
    cbn [JS.toLowerCase JS.includes]. rewrite Hl, Hu.
    unfold pretty_N_char. by repeat case_match.
Qed.

Lemma pretty_nat_plain (i : nat) :
  JS.toLowerCase (pretty i) = pretty i /\ pretty i <> "__proto__".
Proof.
  assert (JS.toLowerCase (pretty i) = pretty i
          /\ JS.includes (pretty i) "_" = false) as [Hl Hu].
  { unfold pretty, pretty_nat, pretty, pretty_N.
    case_decide; [done |]. by apply pretty_N_go_plain. }
  split; [done |]. intros Heq. rewrite Heq in Hu. discriminate Hu.
Qed.

(** The last string under the key of index [i], among the entries of an
    array whose first index is [n]. *)
Lemma lastMapped_indices (elems : list Json.JSValue) (n i : nat) :
  lastMapped (pretty i) (imap (fun j x => (pretty (n + j)%nat, x)) elems)
  = match (if decide (n <= i)%nat then elems !! (i - n)%nat else None) with
    | Some (Json.JString s) => Some s
    | _ => None
    end.
Proof.
  revert n. induction elems as [|x elems IH]; intros n.
  - cbn. by case_decide.
  - rewrite imap_cons. cbn [lastMapped].
    rewrite (imap_ext _ (fun j y => (pretty (S n + j)%nat, y)))
      by (intros j y _; cbn; do 2 f_equal; lia).
    rewrite IH. rewrite Nat.add_0_r.
    destruct (pretty_nat_plain n) as [-> _].
    destruct (decide (S n <= i)%nat) as [Hle | Hnle].
    + rewrite decide_True by lia.
      replace (i - n)%nat with (S (i - S n)) by lia. cbn [lookup list_lookup].
      destruct (elems !! (i - S n)%nat) as [[| | | s | |] |];
        try done; (destruct (String.eqb_spec (pretty n) (pretty i)) as [Heq | _];
                   [apply (inj pretty) in Heq; lia | by destruct x]).
    + destruct (decide (n <= i)%nat) as [Hle | Hnle'].
      * assert (i = n) as -> by lia. rewrite Nat.sub_diag. cbn.
        rewrite String.eqb_refl. by destruct x.
      * destruct (String.eqb_spec (pretty n) (pretty i)) as [Heq | _];
          [apply (inj pretty) in Heq; lia | by destruct x].
Qed.

(** X16. An array passes for the object that [emailMappings] must be: its
    elements are taken as entries under their indices written in decimal, so
    the validated mappings map the index of each string element to it and
    hold nothing else. *)
Theorem validateConfig_array_mappings (parsed : Json.JSValue)
    (elems : list Json.JSValue) :
  Json.field parsed "emailMappings" = Some (Json.JArray elems) ->
  exists m : gmap string string,
    emailMappings (validateConfig parsed) = Some m /\
    (forall i : nat,
        m !! pretty i
        = match elems !! i with
          | Some (Json.JString s) => Some s
          | _ => None
          end) /\
    (forall k, is_Some (m !! k) -> exists i : nat, k = pretty i).
Proof.
  intros Hf. eexists. split; [by apply validateConfig_mappings |].
  cbn [Json.entries]. split.
  - intros i. destruct (pretty_nat_plain i) as [_ Hne].
    rewrite rebuild_lookup by done.
    pose proof (lastMapped_indices elems 0 i) as Hi.
    rewrite decide_True in Hi by lia. rewrite Nat.sub_0_r in Hi.
    etrans; [| exact Hi]. by destruct (lastMapped _ _).
  - intros k [v Hk]. destruct (decide (k = "__proto__")) as [-> | Hne].
    + by rewrite rebuild_proto in Hk.
    + rewrite rebuild_lookup in Hk by done.
      destruct (lastMapped k _) as [s |] eqn:Hl; [| done].
      apply lastMapped_Some in Hl as (e & Hin & <-).
      apply elem_of_lookup_imap in Hin as (i & x & [= -> _] & _).
      exists i. by destruct (pretty_nat_plain i) as [-> _].
Qed.

Lemma validateConfig_array_mappings_witness :
  emailMappings
    (validateConfig
       (Json.JObject
          [("emailMappings",
            Json.JArray [Json.JString "a"; Json.JNull; Json.JString "b"])]))
  = Some {["0" := "a"; "2" := "b"]}.
Proof.
  destruct (validateConfig_array_mappings
              (Json.JObject
                 [("emailMappings",
                   Json.JArray [Json.JString "a"; Json.JNull;
                                Json.JString "b"])])
              [Json.JString "a"; Json.JNull; Json.JString "b"] eq_refl)
    as (m & Hm & _).
  rewrite Hm. injection Hm as <-. reflexivity.
Defined.
